(** * SybilShield: the token-bucket rate limiter and the identity
      verification state machine

    Shallow embedding of
    - [src/api/endpoints/optimized_api_server.py]: [MockRedis] and
      [TokenBucketRateLimiter.consume];
    - [src/off-chain/identity/verification_system.py]: the verifier classes
      and [VerificationManager].

    Python floats are read as exact rationals ([Q]).  The wall clock and the
    random sources are inputs of the model, and the digests of [hashlib]
    are kept symbolic. *)

From Stdlib Require Import QArith Qround Qminmax Lqa Sorted.
From stdpp Require Import gmap strings list fin_maps pretty.

Open Scope string_scope.

(** ** The rate limiter *)

Module Limiter.

(** The JSON object [{"tokens": .., "last_refill": ..}] kept under a bucket
    key; [json.dumps] and [json.loads] round-trip its two numbers. *)
Record Bucket := mkBucket { tokens : Q; last_refill : Q }.

(** [MockRedis]: the two dictionaries [self.data] and [self.expiry], at the
    keys of the limiter (the values there are buckets). *)
Record MockRedis := mkRedis {
  data : gmap string Bucket;
  expiry : gmap string Q
}.

Definition empty_redis : MockRedis := mkRedis ∅ ∅.

(** The calls made on the backing store, in program order. *)
Inductive RedisCall :=
| CallGet (key : string)
| CallSet (key : string) (value : Bucket) (ex : Z).

Definition is_get (c : RedisCall) : bool :=
  match c with CallGet _ => true | CallSet _ _ _ => false end.

Definition is_set (c : RedisCall) : bool :=
  match c with CallGet _ => false | CallSet _ _ _ => true end.

Definition Qltb (a b : Q) : bool := negb (Qle_bool b a).

(** [MockRedis.get]: the value, unless the key is missing or its expiry is
    not in the future of the clock reading [time]. *)
Definition get (r : MockRedis) (time : Q) (key : string) : option Bucket :=
  match data r !! key with
  | Some v =>
      match expiry r !! key with
      | None => Some v
      | Some e => if Qltb time e then Some v else None
      end
  | None => None
  end.

(** [MockRedis.set]: [if ex:] skips the expiry for [ex = 0]. *)
Definition set (r : MockRedis) (time : Q) (key : string) (value : Bucket)
    (ex : Z) : MockRedis :=
  mkRedis (<[key := value]> (data r))
          (if Z.eqb ex 0 then expiry r
           else <[key := (time + inject_Z ex)%Q]> (expiry r)).

(** Python's [int()] on a float: truncation towards zero. *)
Definition py_int (q : Q) : Z := Z.quot (Qnum q) (Zpos (Qden q)).

Definition bucket_key (key : string) : string := "ratelimit:" ++ key.

(** The time-to-live [int(capacity / rate * 2)] a bucket is stored with. *)
Definition ttl (rate capacity : Q) : Z := py_int (capacity / rate * 2)%Q.

(** What a call of [consume] comes to: it returns the admit flag, or the
    division [capacity / rate] in the expiry argument raises for
    [rate = 0]. *)
Inductive Outcome :=
| Returned (flag : bool)
| ZeroDivisionError.

(** [TokenBucketRateLimiter.consume].  [now] is the reading of
    [time.time()], taken as one value for the call (the store reads the same
    clock); the result carries the outcome, the store afterwards and the
    store calls that were made.  The arguments of [self.redis.set] are
    evaluated before the call, so a raising expiry leaves the store
    unwritten. *)
Definition consume (r : MockRedis) (now : Q) (key : string)
    (cost rate capacity : Q) : Outcome * MockRedis * list RedisCall :=
  let bkey := bucket_key key in
  match get r now bkey with
  | Some bucket =>
      let elapsed := (now - last_refill bucket)%Q in
      let new_tokens := Qmin capacity (tokens bucket + elapsed * rate)%Q in
      if Qltb new_tokens cost then (Returned false, r, [CallGet bkey])
      else
        let b := mkBucket (new_tokens - cost)%Q now in
        if Qeq_bool rate 0 then (ZeroDivisionError, r, [CallGet bkey])
        else
          let ex := ttl rate capacity in
          (Returned true, set r now bkey b ex,
           [CallGet bkey; CallSet bkey b ex])
  | None =>
      if Qltb capacity cost then (Returned false, r, [CallGet bkey])
      else
        let b := mkBucket (capacity - cost)%Q now in
        if Qeq_bool rate 0 then (ZeroDivisionError, r, [CallGet bkey])
        else
          let ex := ttl rate capacity in
          (Returned true, set r now bkey b ex,
           [CallGet bkey; CallSet bkey b ex])
  end.

Definition outcome_of (x : Outcome * MockRedis * list RedisCall) : Outcome :=
  x.1.1.
Definition store_after (x : Outcome * MockRedis * list RedisCall)
    : MockRedis := x.1.2.
Definition calls_of (x : Outcome * MockRedis * list RedisCall)
    : list RedisCall := x.2.

(** The call returned [True]. *)
Definition admitted (x : Outcome * MockRedis * list RedisCall) : bool :=
  match outcome_of x with
  | Returned flag => flag
  | ZeroDivisionError => false
  end.

(** [n] calls in a row at the same clock reading: their outcomes and the
    store at the end. *)
Fixpoint consume_n (n : nat) (r : MockRedis) (now : Q) (key : string)
    (cost rate capacity : Q) : list Outcome * MockRedis :=
  match n with
  | O => ([], r)
  | S n' =>
      let x := consume r now key cost rate capacity in
      let rest := consume_n n' (store_after x) now key cost rate capacity in
      (outcome_of x :: rest.1, rest.2)
  end.

(** [floor(capacity / cost)], the number of calls a full bucket pays
    for. *)
Definition quota (cost capacity : Q) : nat :=
  Z.to_nat (Qfloor (capacity / cost)).

(** The expiry kept for a key, if any, lies in the future of [now]. *)
Definition expiry_ahead (now : Q) (k : string) (r : MockRedis) : Prop :=
  match expiry r !! k with
  | None => True
  | Some e => (now < e)%Q
  end.

(** The store holds, readable at [now], the bucket of [key] after [k]
    admitted calls of cost [cost] on a full bucket of [capacity]. *)
Definition drained (now : Q) (key : string) (cost capacity : Q) (k : nat)
    (r : MockRedis) : Prop :=
  expiry_ahead now (bucket_key key) r /\
  exists b, data r !! bucket_key key = Some b /\
            (last_refill b == now)%Q /\
            (tokens b == capacity - inject_Z (Z.of_nat k) * cost)%Q.

End Limiter.

(** ** Python values, dictionaries and exceptions *)

Module Py.

#[local] Set Warnings "-register-all".

Inductive pyval :=
| VNone
| VBool (b : bool)
| VInt (z : Z)
| VStr (s : string)
| VDict (items : list (string * pyval)).

(** A dictionary literal, keys in the order they are written. *)
Abbreviation dict := (list (string * pyval)).

Fixpoint dict_get (d : dict) (k : string) : option pyval :=
  match d with
  | [] => None
  | (k', v) :: d' => if String.eqb k' k then Some v else dict_get d' k
  end.

Inductive exn :=
| NameError (name : string)
| KeyError (key : string)
| AttributeError (attr : string)
| TypeError (msg : string)
| NotImplementedError (msg : string).

Inductive res (A : Type) :=
| Ok (a : A)
| Raise (e : exn).
Arguments Ok {A} a.
Arguments Raise {A} e.

Definition raises {A} (x : res A) : bool :=
  match x with Ok _ => false | Raise _ => true end.

(** [d[k]]. *)
Definition subscript (d : dict) (k : string) : res pyval :=
  match dict_get d k with
  | Some v => Ok v
  | None => Raise (KeyError k)
  end.

(** A value used where the manager keeps a string (the id of a record, its
    status); the results of the verifiers carry strings there. *)
Definition as_str (v : pyval) : res string :=
  match v with
  | VStr s => Ok s
  | _ => Raise (TypeError "str expected")
  end.

Definition subscript_str (d : dict) (k : string) : res string :=
  match subscript d k with
  | Ok v => as_str v
  | Raise e => Raise e
  end.

(** The status a result dictionary reports, if it has one. *)
Definition status_of (d : dict) : option pyval := dict_get d "status".

(** [repr(v)] and [str(v)]; characters that [repr] would escape are kept
    as they are (the rendering only feeds a digest). *)
Fixpoint py_repr (v : pyval) : string :=
  match v with
  | VNone => "None"
  | VBool true => "True"
  | VBool false => "False"
  | VInt z => pretty z
  | VStr s => "'" ++ s ++ "'"
  | VDict items =>
      "{" ++
      (fix go (l : list (string * pyval)) : string :=
         match l with
         | [] => ""
         | (k, x) :: l' =>
             "'" ++ k ++ "': " ++ py_repr x ++
             match l' with [] => "" | _ => ", " end ++ go l'
         end) items
      ++ "}"
  end.

Definition py_str (v : pyval) : string :=
  match v with
  | VStr s => s
  | _ => py_repr v
  end.

(** [hashlib.sha256(s.encode()).hexdigest()], kept symbolic. *)
Definition sha256_hexdigest (s : string) : string := "sha256:" ++ s.

(** What a call reads from its surroundings: the clock ([time.time()] and
    [datetime.now()], one reading per call, in seconds), the two draws of
    [os.urandom(8).hex()], and the draws of the random generator. *)
Record Env := mkEnv {
  clock : Z;
  urandom_id : string;
  urandom_session : string;
  rand_a : Z;
  rand_b : Z;
  rand_op : nat
}.

(** [datetime.now().isoformat()]: stored records keep the clock reading,
    result dictionaries its rendering. *)
Definition isoformat (t : Z) : pyval := VStr (pretty t).

(** The names bound at the top level of [verification_system.py]: its
    imports, its logger and its classes. *)
Definition module_globals : list string :=
  ["os"; "logging"; "requests"; "json"; "hashlib"; "time"; "base64";
   "Dict"; "List"; "Tuple"; "Any"; "Optional"; "datetime"; "timedelta";
   "logger"; "IdentityVerifier"; "SocialMediaVerifier";
   "DecentralizedIDVerifier"; "ProofOfPersonhoodVerifier";
   "VerificationManager"].

(** Reading a global name inside a function body, [globals] being the
    names the module binds. *)
Definition load_global (globals : list string) (name : string) : res unit :=
  if existsb (String.eqb name) globals then Ok tt
  else Raise (NameError name).

(** [IdentityVerifier.generate_verification_id]. *)
Definition generate_verification_id (verification_type : string) (env : Env)
    (address : string) : string :=
  verification_type ++ "_" ++ address ++ "_" ++ pretty (clock env) ++ "_"
    ++ urandom_id env.

End Py.

Import Py.

(** ** [SocialMediaVerifier] *)

Module SocialMediaVerifier.

(** An entry of [self.verification_challenges]. *)
Record Session := mkSession {
  address : string;
  challenge : string;
  status : string;
  timestamp : Z;
  platform_of : string;
  proof : option pyval;
  verified_at : option Z
}.

Record t := mk {
  verification_type : string;
  verification_id : option string;
  platform : string;
  verification_challenges : gmap string Session
}.

Definition init (platform : string) : t :=
  mk ("social_" ++ platform) None platform ∅.

Definition _generate_challenge (env : Env) (address : string) : string :=
  let message := "Verifying my Aptos address " ++ address
                   ++ " for AptosSybilShield at " ++ pretty (clock env) in
  let signature := String.substring 0 16 (sha256_hexdigest message) in
  message ++ " Verification code: " ++ signature.

Definition nl : string := String (Ascii.ascii_of_nat 10) EmptyString.

Definition _get_instructions (self : t) (challenge : string) : string :=
  if String.eqb (platform self) "twitter" then
    "1. Post the following message on your Twitter account:" ++ nl ++ nl
    ++ challenge ++ nl ++ nl
    ++ "2. Make sure the post is public" ++ nl
    ++ "3. Copy the URL of your tweet and submit it as proof"
  else if String.eqb (platform self) "github" then
    "1. Create a public gist on GitHub" ++ nl
    ++ "2. Name the file 'aptos_verification.txt'" ++ nl
    ++ "3. Add the following content to the gist:" ++ nl ++ nl
    ++ challenge ++ nl ++ nl
    ++ "4. Copy the URL of your gist and submit it as proof"
  else
    "1. Post the following message on your " ++ platform self
    ++ " account:" ++ nl ++ nl
    ++ challenge ++ nl ++ nl
    ++ "2. Make sure the post is public" ++ nl
    ++ "3. Copy the URL of your post and submit it as proof".

Definition start_verification (self : t) (env : Env) (address : string)
    : res dict * t :=
  let vid := generate_verification_id (verification_type self) env address in
  let challenge := _generate_challenge env address in
  let session :=
    mkSession address challenge "pending" (clock env) (platform self)
              None None in
  (Ok [("verification_id", VStr vid);
       ("verification_type", VStr (verification_type self));
       ("platform", VStr (platform self));
       ("address", VStr address);
       ("challenge", VStr challenge);
       ("instructions", VStr (_get_instructions self challenge));
       ("status", VStr "pending")],
   mk (verification_type self) (Some vid) (platform self)
      (<[vid := session]> (verification_challenges self))).

Definition check_verification_status (self : t) (vid : string)
    : res dict * t :=
  match verification_challenges self !! vid with
  | None =>
      (Ok [("verification_id", VStr vid);
           ("status", VStr "not_found");
           ("error", VStr "Verification ID not found")], self)
  | Some challenge_data =>
      (Ok [("verification_id", VStr vid);
           ("verification_type", VStr (verification_type self));
           ("platform", VStr (platform self));
           ("address", VStr (address challenge_data));
           ("status", VStr (status challenge_data));
           ("timestamp", isoformat (timestamp challenge_data))], self)
  end.

(** [verification_success] is the constant [True]: the session is marked
    verified before the result is built, and [proof.encode()] needs a
    string. *)
Definition complete_verification (self : t) (env : Env) (vid : string)
    (proof : pyval) : res dict * t :=
  match verification_challenges self !! vid with
  | None =>
      (Ok [("verification_id", VStr vid);
           ("status", VStr "failed");
           ("error", VStr "Verification ID not found")], self)
  | Some challenge_data =>
      let challenge_data' :=
        mkSession (address challenge_data) (challenge challenge_data)
                  "verified" (timestamp challenge_data)
                  (platform_of challenge_data) (Some proof)
                  (Some (clock env)) in
      let self' :=
        mk (verification_type self) (verification_id self) (platform self)
           (<[vid := challenge_data']> (verification_challenges self)) in
      match proof with
      | VStr p =>
          (Ok [("verification_id", VStr vid);
               ("verification_type", VStr (verification_type self));
               ("platform", VStr (platform self));
               ("address", VStr (address challenge_data));
               ("status", VStr "verified");
               ("timestamp", isoformat (timestamp challenge_data));
               ("verified_at", isoformat (clock env));
               ("proof_hash", VStr (sha256_hexdigest p))], self')
      | _ => (Raise (AttributeError "encode"), self')
      end
  end.

End SocialMediaVerifier.

(** ** [DecentralizedIDVerifier] *)

Module DecentralizedIDVerifier.

(** An entry of [self.verification_requests]. *)
Record Session := mkSession {
  address : string;
  challenge : string;
  status : string;
  timestamp : Z;
  did_method_of : string;
  did : option pyval;
  signature : option pyval;
  verified_at : option Z
}.

Record t := mk {
  verification_type : string;
  verification_id : option string;
  did_method : string;
  verification_requests : gmap string Session
}.

(** [did_method.replace(':', '_')]. *)
Fixpoint replace_colon (s : string) : string :=
  match s with
  | EmptyString => EmptyString
  | String c s' =>
      String (if Ascii.eqb c (Ascii.ascii_of_nat 58) then Ascii.ascii_of_nat 95
              else c) (replace_colon s')
  end.

Definition init (did_method : string) : t :=
  mk ("did_" ++ replace_colon did_method) None did_method ∅.

Definition _generate_challenge (env : Env) (address : string) : string :=
  "Verify Aptos address " ++ address ++ " with DID at " ++ pretty (clock env).

Definition nl : string := String (Ascii.ascii_of_nat 10) EmptyString.

Definition _get_instructions (self : t) (challenge : string) : string :=
  if String.eqb (did_method self) "did:web" then
    "1. Create a DID document at your web domain" ++ nl
    ++ "2. Add your Aptos address as a verification method" ++ nl
    ++ "3. Sign the challenge: " ++ challenge ++ nl
    ++ "4. Submit your DID and the signature as proof"
  else
    "1. Using your " ++ did_method self ++ " identity" ++ nl
    ++ "2. Sign the challenge: " ++ challenge ++ nl
    ++ "3. Submit your DID and the signature as proof".

Definition start_verification (self : t) (env : Env) (address : string)
    : res dict * t :=
  let vid := generate_verification_id (verification_type self) env address in
  let challenge := _generate_challenge env address in
  let session :=
    mkSession address challenge "pending" (clock env) (did_method self)
              None None None in
  (Ok [("verification_id", VStr vid);
       ("verification_type", VStr (verification_type self));
       ("did_method", VStr (did_method self));
       ("address", VStr address);
       ("challenge", VStr challenge);
       ("instructions", VStr (_get_instructions self challenge));
       ("status", VStr "pending")],
   mk (verification_type self) (Some vid) (did_method self)
      (<[vid := session]> (verification_requests self))).

Definition check_verification_status (self : t) (vid : string)
    : res dict * t :=
  match verification_requests self !! vid with
  | None =>
      (Ok [("verification_id", VStr vid);
           ("status", VStr "not_found");
           ("error", VStr "Verification ID not found")], self)
  | Some request_data =>
      (Ok [("verification_id", VStr vid);
           ("verification_type", VStr (verification_type self));
           ("did_method", VStr (did_method self));
           ("address", VStr (address request_data));
           ("status", VStr (status request_data));
           ("timestamp", isoformat (timestamp request_data))], self)
  end.

(** [proof.get(k)] on a dictionary: the value or [None]. *)
Definition dict_get_or_none (d : dict) (k : string) : pyval :=
  match dict_get d k with Some v => v | None => VNone end.

(** The status is set to verified first; [proof.get] then needs a
    dictionary. *)
Definition complete_verification (self : t) (env : Env) (vid : string)
    (proof : pyval) : res dict * t :=
  match verification_requests self !! vid with
  | None =>
      (Ok [("verification_id", VStr vid);
           ("status", VStr "failed");
           ("error", VStr "Verification ID not found")], self)
  | Some request_data =>
      let with_status :=
        mkSession (address request_data) (challenge request_data)
                  "verified" (timestamp request_data)
                  (did_method_of request_data) (did request_data)
                  (signature request_data) (verified_at request_data) in
      match proof with
      | VDict items =>
          let request_data' :=
            mkSession (address request_data) (challenge request_data)
                      "verified" (timestamp request_data)
                      (did_method_of request_data)
                      (Some (dict_get_or_none items "did"))
                      (Some (dict_get_or_none items "signature"))
                      (Some (clock env)) in
          (Ok [("verification_id", VStr vid);
               ("verification_type", VStr (verification_type self));
               ("did_method", VStr (did_method self));
               ("address", VStr (address request_data));
               ("did", dict_get_or_none items "did");
               ("status", VStr "verified");
               ("timestamp", isoformat (timestamp request_data));
               ("verified_at", isoformat (clock env))],
           mk (verification_type self) (verification_id self)
              (did_method self)
              (<[vid := request_data']> (verification_requests self)))
      | _ =>
          (Raise (AttributeError "get"),
           mk (verification_type self) (verification_id self)
              (did_method self)
              (<[vid := with_status]> (verification_requests self)))
      end
  end.

End DecentralizedIDVerifier.

(** ** [ProofOfPersonhoodVerifier] *)

Module ProofOfPersonhoodVerifier.

(** An entry of [self.verification_sessions]. *)
Record Session := mkSession {
  address : string;
  challenge : dict;
  status : string;
  timestamp : Z;
  method_of : string;
  attempts : Z;
  max_attempts : Z;
  verified_at : option Z
}.

Record t := mk {
  verification_type : string;
  verification_id : option string;
  method : string;
  verification_sessions : gmap string Session
}.

Definition init (method : string) : t := mk ("pop_" ++ method) None method ∅.

(** [self.verification_sessions[vid] = session] (also the write-back of a
    session mutated in place). *)
Definition store (self : t) (vid : string) (session : Session) : t :=
  mk (verification_type self) (verification_id self) (method self)
     (<[vid := session]> (verification_sessions self)).

Definition operators : list string := ["+"; "-"; "*"].

(** The captcha branch reads the global [np] before anything else. *)
Definition _generate_challenge (globals : list string) (self : t) (env : Env)
    : res dict :=
  if String.eqb (method self) "captcha" then
    match load_global globals "np" with
    | Raise e => Raise e
    | Ok _ =>
        let a := rand_a env in
        let b := rand_b env in
        let op := nth (rand_op env) operators "*" in
        let answer :=
          if String.eqb op "+" then (a + b)%Z
          else if String.eqb op "-" then (a - b)%Z
          else (a * b)%Z in
        let challenge_text :=
          "What is " ++ pretty a ++ " " ++ op ++ " " ++ pretty b ++ "?" in
        Ok [("type", VStr "text_captcha");
            ("question", VStr challenge_text);
            ("answer", VStr (pretty answer))]
    end
  else if String.eqb (method self) "video" then
    Ok [("type", VStr "video");
        ("session_id", VStr (urandom_session env));
        ("instructions",
         VStr "Please prepare for a brief video verification")]
  else
    Ok [("type", VStr "generic");
        ("session_id", VStr (urandom_session env))].

Definition nl : string := String (Ascii.ascii_of_nat 10) EmptyString.

Definition _get_instructions (self : t) : string :=
  if String.eqb (method self) "captcha" then
    "Solve the CAPTCHA challenge and submit your answer"
  else if String.eqb (method self) "video" then
    "1. Allow camera access when prompted" ++ nl
    ++ "2. Follow the on-screen instructions" ++ nl
    ++ "3. Complete the facial verification process"
  else "Follow the verification process as instructed".

(** [start_verification] in a module that binds [globals];
    [generate_verification_id] has already set [self.verification_id] when
    the challenge is generated. *)
Definition start_verification_in (globals : list string) (self : t)
    (env : Env) (address : string) : res dict * t :=
  let vid := generate_verification_id (verification_type self) env address in
  let self1 :=
    mk (verification_type self) (Some vid) (method self)
       (verification_sessions self) in
  match _generate_challenge globals self1 env with
  | Raise e => (Raise e, self1)
  | Ok challenge =>
      let session :=
        mkSession address challenge "pending" (clock env) (method self)
                  0 3 None in
      (Ok [("verification_id", VStr vid);
           ("verification_type", VStr (verification_type self));
           ("method", VStr (method self));
           ("address", VStr address);
           ("challenge", VDict challenge);
           ("instructions", VStr (_get_instructions self));
           ("status", VStr "pending")],
       store self1 vid session)
  end.

(** [start_verification], in the module as it is. *)
Definition start_verification (self : t) (env : Env) (address : string)
    : res dict * t :=
  start_verification_in module_globals self env address.

Definition check_verification_status (self : t) (vid : string)
    : res dict * t :=
  match verification_sessions self !! vid with
  | None =>
      (Ok [("verification_id", VStr vid);
           ("status", VStr "not_found");
           ("error", VStr "Verification ID not found")], self)
  | Some session_data =>
      (Ok [("verification_id", VStr vid);
           ("verification_type", VStr (verification_type self));
           ("method", VStr (method self));
           ("address", VStr (address session_data));
           ("status", VStr (status session_data));
           ("timestamp", isoformat (timestamp session_data));
           ("attempts", VInt (attempts session_data));
           ("max_attempts", VInt (max_attempts session_data))], self)
  end.

(** [proof == answer] for a proof that is the string [p]. *)
Definition str_eq_val (p : string) (answer : pyval) : bool :=
  match answer with
  | VStr a => String.eqb p a
  | _ => false
  end.

(** The value of [verification_success] after the method dispatch. *)
Definition verify_proof (self : t) (session_data : Session) (proof : pyval)
    : res bool :=
  if String.eqb (method self) "captcha" then
    match proof with
    | VStr p =>
        match subscript (challenge session_data) "answer" with
        | Ok answer => Ok (str_eq_val p answer)
        | Raise e => Raise e
        end
    | _ => Ok false
    end
  else if String.eqb (method self) "video" then Ok true
  else Ok true.

Definition with_attempts (s : Session) (n : Z) : Session :=
  mkSession (address s) (challenge s) (status s) (timestamp s) (method_of s)
            n (max_attempts s) (verified_at s).

Definition with_status (s : Session) (st : string) : Session :=
  mkSession (address s) (challenge s) st (timestamp s) (method_of s)
            (attempts s) (max_attempts s) (verified_at s).

Definition with_verified_at (s : Session) (t : Z) : Session :=
  mkSession (address s) (challenge s) (status s) (timestamp s) (method_of s)
            (attempts s) (max_attempts s) (Some t).

Definition complete_verification (self : t) (env : Env) (vid : string)
    (proof : pyval) : res dict * t :=
  match verification_sessions self !! vid with
  | None =>
      (Ok [("verification_id", VStr vid);
           ("status", VStr "failed");
           ("error", VStr "Verification ID not found")], self)
  | Some session_data0 =>
      let session_data :=
        with_attempts session_data0 (attempts session_data0 + 1)%Z in
      if (max_attempts session_data <? attempts session_data)%Z then
        (Ok [("verification_id", VStr vid);
             ("verification_type", VStr (verification_type self));
             ("method", VStr (method self));
             ("address", VStr (address session_data));
             ("status", VStr "failed");
             ("timestamp", isoformat (timestamp session_data));
             ("error", VStr "Maximum attempts exceeded")],
         store self vid (with_status session_data "failed"))
      else
        match verify_proof self session_data proof with
        | Raise e => (Raise e, store self vid session_data)
        | Ok true =>
            (Ok [("verification_id", VStr vid);
                 ("verification_type", VStr (verification_type self));
                 ("method", VStr (method self));
                 ("address", VStr (address session_data));
                 ("status", VStr "verified");
                 ("timestamp", isoformat (timestamp session_data));
                 ("verified_at", isoformat (clock env))],
             store self vid
               (with_verified_at (with_status session_data "verified")
                                 (clock env)))
        | Ok false =>
            let exhausted :=
              (max_attempts session_data <=? attempts session_data)%Z in
            let status := if exhausted then "failed" else "pending" in
            let error :=
              if exhausted then "Maximum attempts exceeded"
              else "Verification failed, please try again" in
            (Ok [("verification_id", VStr vid);
                 ("verification_type", VStr (verification_type self));
                 ("method", VStr (method self));
                 ("address", VStr (address session_data));
                 ("status", VStr status);
                 ("timestamp", isoformat (timestamp session_data));
                 ("attempts", VInt (attempts session_data));
                 ("max_attempts", VInt (max_attempts session_data));
                 ("error", VStr error)],
             store self vid
               (if exhausted then with_status session_data "failed"
                else session_data))
        end
  end.

End ProofOfPersonhoodVerifier.

(** ** [VerificationManager] *)

Module VerificationManager.

(** The registered objects: instances of the base class or of one of its
    three subclasses. *)
Inductive Verifier :=
| Base (verification_type : string) (verification_id : option string)
| Social (v : SocialMediaVerifier.t)
| Did (v : DecentralizedIDVerifier.t)
| Pop (v : ProofOfPersonhoodVerifier.t).

Definition type_of (v : Verifier) : string :=
  match v with
  | Base ty _ => ty
  | Social s => SocialMediaVerifier.verification_type s
  | Did d => DecentralizedIDVerifier.verification_type d
  | Pop p => ProofOfPersonhoodVerifier.verification_type p
  end.

(** Method dispatch on the registered object, in a module that binds
    [globals]. *)
Definition verifier_start_in (globals : list string) (v : Verifier)
    (env : Env) (address : string) : res dict * Verifier :=
  match v with
  | Base _ _ =>
      (Raise (NotImplementedError
                "Subclasses must implement start_verification method"), v)
  | Social s =>
      let x := SocialMediaVerifier.start_verification s env address in
      (x.1, Social x.2)
  | Did d =>
      let x := DecentralizedIDVerifier.start_verification d env address in
      (x.1, Did x.2)
  | Pop p =>
      let x :=
        ProofOfPersonhoodVerifier.start_verification_in globals p env address
      in
      (x.1, Pop x.2)
  end.

Definition verifier_start (v : Verifier) (env : Env) (address : string)
    : res dict * Verifier :=
  verifier_start_in module_globals v env address.

Definition verifier_check (v : Verifier) (vid : string)
    : res dict * Verifier :=
  match v with
  | Base _ _ =>
      (Raise (NotImplementedError
                "Subclasses must implement check_verification_status method"),
       v)
  | Social s =>
      let x := SocialMediaVerifier.check_verification_status s vid in
      (x.1, Social x.2)
  | Did d =>
      let x := DecentralizedIDVerifier.check_verification_status d vid in
      (x.1, Did x.2)
  | Pop p =>
      let x := ProofOfPersonhoodVerifier.check_verification_status p vid in
      (x.1, Pop x.2)
  end.

Definition verifier_complete (v : Verifier) (env : Env) (vid : string)
    (proof : pyval) : res dict * Verifier :=
  match v with
  | Base _ _ =>
      (Raise (NotImplementedError
                "Subclasses must implement complete_verification method"), v)
  | Social s =>
      let x := SocialMediaVerifier.complete_verification s env vid proof in
      (x.1, Social x.2)
  | Did d =>
      let x := DecentralizedIDVerifier.complete_verification d env vid proof in
      (x.1, Did x.2)
  | Pop p =>
      let x :=
        ProofOfPersonhoodVerifier.complete_verification p env vid proof in
      (x.1, Pop x.2)
  end.

(** An entry of [self.verification_records]. *)
Record Record_ := mkRecord {
  verification_type : string;
  address : string;
  status : string;
  started_at : Z;
  verified_at : option Z;
  proof_hash : option string
}.

(** [self.verification_records] is iterated by [get_verification_history]:
    a dictionary in insertion order. *)
Abbreviation records := (list (string * Record_)).

Fixpoint od_get (d : records) (k : string) : option Record_ :=
  match d with
  | [] => None
  | (k', v) :: d' => if String.eqb k' k then Some v else od_get d' k
  end.

(** [d[k] = v]: an existing key keeps its place, a new key goes last. *)
Fixpoint od_set (d : records) (k : string) (v : Record_) : records :=
  match d with
  | [] => [(k, v)]
  | (k', v') :: d' =>
      if String.eqb k' k then (k, v) :: d' else (k', v') :: od_set d' k v
  end.

Record t := mk {
  verifiers : gmap string Verifier;
  verification_records : records
}.

Definition init : t := mk ∅ [].

Definition register_verifier (self : t) (verifier : Verifier) : t :=
  mk (<[type_of verifier := verifier]> (verifiers self))
     (verification_records self).

Definition not_available (verification_type : string) : pyval :=
  VStr ("Verification method '" ++ verification_type ++ "' not available").

Definition not_found (vid : string) : dict :=
  [("verification_id", VStr vid);
   ("status", VStr "not_found");
   ("error", VStr "Verification ID not found")].

Definition start_verification_in (globals : list string) (self : t)
    (env : Env) (verification_type address : string) : res dict * t :=
  match verifiers self !! verification_type with
  | None =>
      (Ok [("status", VStr "error");
           ("error", not_available verification_type)], self)
  | Some verifier =>
      let x := verifier_start_in globals verifier env address in
      let vs := <[verification_type := x.2]> (verifiers self) in
      match x.1 with
      | Raise e => (Raise e, mk vs (verification_records self))
      | Ok result =>
          match subscript_str result "verification_id" with
          | Raise e => (Raise e, mk vs (verification_records self))
          | Ok vid =>
              (Ok result,
               mk vs (od_set (verification_records self) vid
                        (mkRecord verification_type address "pending"
                                  (clock env) None None)))
          end
      end
  end.

(** [start_verification], in the module as it is. *)
Definition start_verification (self : t) (env : Env)
    (verification_type address : string) : res dict * t :=
  start_verification_in module_globals self env verification_type address.

Definition set_status (r : Record_) (s : string) : Record_ :=
  mkRecord (verification_type r) (address r) s (started_at r)
           (verified_at r) (proof_hash r).

Definition set_verified (r : Record_) (t : Z) (h : string) : Record_ :=
  mkRecord (verification_type r) (address r) (status r) (started_at r)
           (Some t) (Some h).

Definition check_verification_status (self : t) (vid : string)
    : res dict * t :=
  match od_get (verification_records self) vid with
  | None => (Ok (not_found vid), self)
  | Some record =>
      let verification_type := verification_type record in
      match verifiers self !! verification_type with
      | None =>
          (Ok [("verification_id", VStr vid);
               ("status", VStr "error");
               ("error", not_available verification_type)], self)
      | Some verifier =>
          let x := verifier_check verifier vid in
          let vs := <[verification_type := x.2]> (verifiers self) in
          match x.1 with
          | Raise e => (Raise e, mk vs (verification_records self))
          | Ok result =>
              match subscript_str result "status" with
              | Raise e => (Raise e, mk vs (verification_records self))
              | Ok s =>
                  (Ok result,
                   mk vs (od_set (verification_records self) vid
                            (set_status record s)))
              end
          end
      end
  end.

Definition complete_verification (self : t) (env : Env) (vid : string)
    (proof : pyval) : res dict * t :=
  match od_get (verification_records self) vid with
  | None => (Ok (not_found vid), self)
  | Some record =>
      let verification_type := verification_type record in
      match verifiers self !! verification_type with
      | None =>
          (Ok [("verification_id", VStr vid);
               ("status", VStr "error");
               ("error", not_available verification_type)], self)
      | Some verifier =>
          let x := verifier_complete verifier env vid proof in
          let vs := <[verification_type := x.2]> (verifiers self) in
          match x.1 with
          | Raise e => (Raise e, mk vs (verification_records self))
          | Ok result =>
              match subscript_str result "status" with
              | Raise e => (Raise e, mk vs (verification_records self))
              | Ok s =>
                  let record1 := set_status record s in
                  let record2 :=
                    if String.eqb s "verified" then
                      set_verified record1 (clock env)
                        (sha256_hexdigest (py_str proof))
                    else record1 in
                  (Ok result,
                   mk vs (od_set (verification_records self) vid record2))
              end
          end
      end
  end.

(** An element of the list [get_verification_history] returns. *)
Record HistoryEntry := mkEntry {
  h_verification_id : string;
  h_verification_type : string;
  h_status : string;
  h_started_at : Z;
  h_verified_at : option Z
}.

Definition entry_of (vid : string) (record : Record_) : HistoryEntry :=
  mkEntry vid (verification_type record) (status record)
          (started_at record) (verified_at record).

(** The loop over [self.verification_records.items()], appending to
    [history]. *)
Definition get_verification_history (self : t) (addr : string)
    : list HistoryEntry :=
  fold_left
    (fun (history : list HistoryEntry) (item : string * Record_) =>
       if String.eqb (address item.2) addr
       then app history [entry_of item.1 item.2]
       else history)
    (verification_records self) [].

(** The operations the manager offers on a running system. *)
Inductive Op :=
| OpStart (env : Env) (verification_type address : string)
| OpCheck (vid : string)
| OpComplete (env : Env) (vid : string) (proof : pyval).

(** One operation, in a module that binds [globals]. *)
Definition step_in (globals : list string) (self : t) (op : Op)
    : res dict * t :=
  match op with
  | OpStart env ty addr => start_verification_in globals self env ty addr
  | OpCheck vid => check_verification_status self vid
  | OpComplete env vid proof => complete_verification self env vid proof
  end.

(** A sequence of operations; an exception is caught by the caller and the
    next operation runs on the state it left. *)
Definition run_in (globals : list string) (self : t) (ops : list Op) : t :=
  fold_left (fun m op => (step_in globals m op).2) ops self.

(** The same in the module as it is. *)
Definition step (self : t) (op : Op) : res dict * t :=
  step_in module_globals self op.

Definition run (self : t) (ops : list Op) : t :=
  run_in module_globals self ops.

Definition record_status (self : t) (vid : string) : option string :=
  status <$> od_get (verification_records self) vid.

End VerificationManager.

(** ** Runs and states the properties are stated on *)

Module Scenario.
Import VerificationManager.

(** The status a call reports: the ["status"] entry of a returned
    dictionary, nothing for a raised exception. *)
Definition reported_status (x : res dict) : option pyval :=
  match x with
  | Ok d => status_of d
  | Raise _ => None
  end.

(** Successive completions of one verification on a proof-of-personhood
    verifier, each on the state the previous one left. *)
Fixpoint pop_completions (self : ProofOfPersonhoodVerifier.t) (env : Env)
    (vid : string) (proofs : list pyval) : list (res dict) :=
  match proofs with
  | [] => []
  | p :: ps =>
      let x := ProofOfPersonhoodVerifier.complete_verification self env vid p in
      x.1 :: pop_completions x.2 env vid ps
  end.

(** The status a verifier keeps for [vid] in its own session store. *)
Definition verifier_session_status (v : Verifier) (vid : string)
    : option string :=
  match v with
  | Base _ _ => None
  | Social s =>
      SocialMediaVerifier.status
        <$> SocialMediaVerifier.verification_challenges s !! vid
  | Did d =>
      DecentralizedIDVerifier.status
        <$> DecentralizedIDVerifier.verification_requests d !! vid
  | Pop p =>
      ProofOfPersonhoodVerifier.status
        <$> ProofOfPersonhoodVerifier.verification_sessions p !! vid
  end.

(** The same, for the verifier registered under [ty]. *)
Definition session_status (m : t) (ty vid : string) : option string :=
  match verifiers m !! ty with
  | Some v => verifier_session_status v vid
  | None => None
  end.

(** The statuses the verifiers write into a session. *)
Definition written_status (s : string) : Prop :=
  s = "pending" \/ s = "verified" \/ s = "failed".

Definition verifier_wf (v : Verifier) : Prop :=
  forall vid s, verifier_session_status v vid = Some s -> written_status s.

(** How a stored status may move in one operation: it stays, or an existing
    one becomes verified or failed. *)
Definition advances (o o' : option string) : Prop :=
  o' = o \/ (is_Some o /\ (o' = Some "verified" \/ o' = Some "failed")).

(** The effect of an operation on the verifier it is dispatched to. *)
Definition verifier_step (globals : list string) (v : Verifier) (op : Op)
    : Verifier :=
  match op with
  | OpStart env _ addr => (verifier_start_in globals v env addr).2
  | OpCheck vid => (verifier_check v vid).2
  | OpComplete env vid proof => (verifier_complete v env vid proof).2
  end.

(** The registry key an operation is dispatched under, if it gets that
    far. *)
Definition target (m : t) (op : Op) : option string :=
  match op with
  | OpStart _ ty _ => Some ty
  | OpCheck vid | OpComplete _ vid _ =>
      verification_type <$> od_get (verification_records m) vid
  end.

(** A start that issues the id [vid] again. *)
Definition reissues (v : Verifier) (vid : string) (op : Op) : bool :=
  match op with
  | OpStart env _ addr =>
      String.eqb (generate_verification_id (type_of v) env addr) vid
  | _ => false
  end.

(** No start of the run issues [vid]: verification ids are fresh. *)
Fixpoint never_reissued (globals : list string) (m : t) (vid : string)
    (ops : list Op) : Prop :=
  match ops with
  | [] => True
  | op :: ops' =>
      (forall ty v, target m op = Some ty -> verifiers m !! ty = Some v ->
                    reissues v vid op = false) /\
      never_reissued globals (step_in globals m op).2 vid ops'
  end.

(** Newly constructed verifier objects. *)
Inductive fresh_verifier : Verifier -> Prop :=
| fresh_base ty : fresh_verifier (Base ty None)
| fresh_social platform :
    fresh_verifier (Social (SocialMediaVerifier.init platform))
| fresh_did did_method :
    fresh_verifier (Did (DecentralizedIDVerifier.init did_method))
| fresh_pop method :
    fresh_verifier (Pop (ProofOfPersonhoodVerifier.init method)).

(** The manager states a program reaches: a new manager, verifiers
    registered as constructed, and the three operations, whatever names
    the module binds. *)
Inductive reachable : t -> Prop :=
| reach_init : reachable init
| reach_register m v :
    reachable m -> fresh_verifier v -> reachable (register_verifier m v)
| reach_step globals m op :
    reachable m -> reachable (step_in globals m op).2.

(** Clock and random draws of an example call. *)
Definition env_at (time : Z) (random : string) : Env :=
  mkEnv time random "5e55" 3 4 0.

(** A manager with the Twitter verifier of the module's example. *)
Definition twitter_manager : t :=
  register_verifier init (Social (SocialMediaVerifier.init "twitter")).

(** Two verifications of one address started one second apart. *)
Definition twitter_twice : t :=
  run twitter_manager
    [OpStart (env_at 1 "aa") "social_twitter" "0xabc";
     OpStart (env_at 2 "bb") "social_twitter" "0xabc"].

(** The globals of the module had it imported [numpy] as [np]. *)
Definition with_numpy : list string := "np" :: module_globals.

Definition captcha_id : string := "pop_captcha_0xabc_1_aa".

(** The captcha verifier after one start in the module with [numpy]; the
    draws of [env_at] make the challenge "What is 3 + 4?". *)
Definition captcha_verifier : ProofOfPersonhoodVerifier.t :=
  (ProofOfPersonhoodVerifier.start_verification_in with_numpy
     (ProofOfPersonhoodVerifier.init "captcha") (env_at 1 "aa") "0xabc").2.

(** The session that start stores under [captcha_id] (lines 480-488). *)
Definition captcha_session : ProofOfPersonhoodVerifier.Session :=
  ProofOfPersonhoodVerifier.mkSession "0xabc"
    [("type", VStr "text_captcha");
     ("question", VStr "What is 3 + 4?");
     ("answer", VStr "7")]
    "pending" 1 "captcha" 0 3 None.

(** The manager after the same start made through it: it holds that
    verifier and the pending record of the verification. *)
Definition captcha_manager : t :=
  (start_verification_in with_numpy
     (register_verifier init (Pop (ProofOfPersonhoodVerifier.init "captcha")))
     (env_at 1 "aa") "pop_captcha" "0xabc").2.

End Scenario.

(** ** Calls of the limiter at successive clock readings *)

Module Traffic.
Import Limiter.

(** One call of [consume] per clock reading of [times], in turn, each on
    the store the call before it left. *)
Fixpoint consume_at (times : list Q) (r : MockRedis) (key : string)
    (cost rate capacity : Q) : list Outcome * MockRedis :=
  match times with
  | [] => ([], r)
  | now :: times' =>
      let x := consume r now key cost rate capacity in
      let rest := consume_at times' (store_after x) key cost rate capacity in
      (outcome_of x :: rest.1, rest.2)
  end.

Definition returned_true (o : Outcome) : bool :=
  match o with
  | Returned flag => flag
  | ZeroDivisionError => false
  end.

(** How many of the calls returned [True]. *)
Definition count_true (outcomes : list Outcome) : nat :=
  length (List.filter returned_true outcomes).

(** The tokens a call at [now] finds for [key]: the stored ones refilled
    for the time elapsed, or a full bucket where nothing is stored. *)
Definition level (rate capacity : Q) (key : string) (now : Q) (r : MockRedis)
    : Q :=
  match data r !! bucket_key key with
  | Some b => Qmin capacity (tokens b + (now - last_refill b) * rate)%Q
  | None => capacity
  end.

(** The entry of [key] is as calls of [consume] with [rate] and [capacity]
    up to the clock reading [now] leave it: tokens between 0 and the
    capacity, refilled no later than [now], expiring one time-to-live after
    the refill (never, where the time-to-live is 0). *)
Definition settled (rate capacity : Q) (key : string) (now : Q)
    (r : MockRedis) : Prop :=
  match data r !! bucket_key key with
  | Some b =>
      (0 <= tokens b)%Q /\ (tokens b <= capacity)%Q /\
      (last_refill b <= now)%Q /\
      match expiry r !! bucket_key key with
      | Some e =>
          ttl rate capacity <> 0%Z /\
          (e == last_refill b + inject_Z (ttl rate capacity))%Q
      | None => ttl rate capacity = 0%Z
      end
  | None => ttl rate capacity <> 0%Z \/ expiry r !! bucket_key key = None
  end.

End Traffic.

(** ** [MockRedis] at any value type *)

Module Store.

(** [MockRedis] holding the documents of one family of keys: the families
    ([verification:], [webhook:], [result:], [batch:], [ratelimit:]) differ
    in their prefix, so that no key of one is a key of another, and each
    keeps values of one shape. *)
Record MockRedis (V : Type) := mkRedis {
  data : gmap string V;
  expiry : gmap string Q
}.
Arguments mkRedis {V}.
Arguments data {V}.
Arguments expiry {V}.

Definition empty {V : Type} : MockRedis V := mkRedis ∅ ∅.

(** [MockRedis.get], [time] being the reading of [time.time()]. *)
Definition get {V : Type} (r : MockRedis V) (time : Q) (key : string)
    : option V :=
  match data r !! key with
  | Some v =>
      match expiry r !! key with
      | None => Some v
      | Some e => if Limiter.Qltb time e then Some v else None
      end
  | None => None
  end.

(** [MockRedis.set]; [ex] is [None] where the argument is left out, and
    [if ex:] skips [ex = 0] as well. *)
Definition set {V : Type} (r : MockRedis V) (time : Q) (key : string)
    (value : V) (ex : option Z) : MockRedis V :=
  mkRedis (<[key := value]> (data r))
          (match ex with
           | Some seconds =>
               if Z.eqb seconds 0 then expiry r
               else <[key := (time + inject_Z seconds)%Q]> (expiry r)
           | None => expiry r
           end).

(** [MockRedis.incr], on a store of counters. *)
Definition incr (r : MockRedis Z) (key : string) : Z * MockRedis Z :=
  match data r !! key with
  | None => (1%Z, mkRedis (<[key := 1%Z]> (data r)) (expiry r))
  | Some n => ((n + 1)%Z, mkRedis (<[key := (n + 1)%Z]> (data r)) (expiry r))
  end.

(** [MockRedis.expire]. *)
Definition expire {V : Type} (r : MockRedis V) (time : Q) (key : string)
    (seconds : Z) : MockRedis V :=
  mkRedis (data r) (<[key := (time + inject_Z seconds)%Q]> (expiry r)).

(** [MockRedis.delete]. *)
Definition delete {V : Type} (r : MockRedis V) (key : string) : MockRedis V :=
  mkRedis (base.delete key (data r)) (base.delete key (expiry r)).

(** [n] increments of one counter, one after the other. *)
Fixpoint incr_n (n : nat) (r : MockRedis Z) (key : string)
    : list Z * MockRedis Z :=
  match n with
  | O => ([], r)
  | S n' =>
      let x := incr r key in
      let rest := incr_n n' x.2 key in
      (x.1 :: rest.1, rest.2)
  end.

End Store.

(** ** The API server: keys, scoring, verification and webhook endpoints *)

Module ApiServer.

(** What a request handler comes to: its return value, an [HTTPException],
    or an exception that no handler of the module catches. *)
Inductive Reply (A : Type) :=
| Return (a : A)
| HTTPException (status_code : Z) (detail : string)
| Unhandled (error : string).
Arguments Return {A}.
Arguments HTTPException {A}.
Arguments Unhandled {A}.

(** *** API keys *)

(** An entry of [api_keys]; timestamps are kept as clock readings. *)
Record ApiKey := mkApiKey {
  key_user_id : string;
  key_rate_limit : Z;
  key_created_at : Q
}.

Record ApiKeyRequest := mkApiKeyRequest {
  req_user_id : string;
  req_rate_limit : Z
}.

Record ApiKeyResponse := mkApiKeyResponse {
  resp_api_key : string;
  resp_user_id : string;
  resp_rate_limit : Z;
  resp_created_at : Q
}.

(** [create_api_key]; [uuid_hex] is the draw [uuid.uuid4().hex]. *)
Definition create_api_key (api_keys : gmap string ApiKey) (uuid_hex : string)
    (datetime_now : Q) (request : ApiKeyRequest)
    : ApiKeyResponse * gmap string ApiKey :=
  let api_key := "ask_" ++ uuid_hex in
  let entry :=
    mkApiKey (req_user_id request) (req_rate_limit request) datetime_now in
  (mkApiKeyResponse api_key (req_user_id request) (req_rate_limit request)
                    (key_created_at entry),
   <[api_key := entry]> api_keys).

(** [validate_api_key], the dependency of every endpoint below: the bucket
    of the key holds [rate_limit] tokens and refills [rate_limit / 60] of
    them a second.  (The key is also noted in [request.state], for the
    log.) *)
Definition validate_api_key (api_keys : gmap string ApiKey)
    (buckets : Limiter.MockRedis) (now : Q) (api_key : string)
    : Reply string * Limiter.MockRedis :=
  match api_keys !! api_key with
  | None => (HTTPException 401 "Invalid API key", buckets)
  | Some info =>
      let rate_limit := inject_Z (key_rate_limit info) in
      let x :=
        Limiter.consume buckets now ("api:" ++ api_key) 1
                        (rate_limit / 60)%Q rate_limit in
      match Limiter.outcome_of x with
      | Limiter.Returned true => (Return api_key, Limiter.store_after x)
      | Limiter.Returned false =>
          (HTTPException 429 "Rate limit exceeded", Limiter.store_after x)
      | Limiter.ZeroDivisionError =>
          (Unhandled "ZeroDivisionError", Limiter.store_after x)
      end
  end.

(** [n] requests with the same key at one clock reading. *)
Fixpoint validate_n (n : nat) (api_keys : gmap string ApiKey)
    (buckets : Limiter.MockRedis) (now : Q) (api_key : string)
    : list (Reply string) * Limiter.MockRedis :=
  match n with
  | O => ([], buckets)
  | S n' =>
      let x := validate_api_key api_keys buckets now api_key in
      let rest := validate_n n' api_keys x.2 now api_key in
      (x.1 :: rest.1, rest.2)
  end.

(** *** Scoring *)

(** The dictionary [process_address] returns beside the address. *)
Record Score := mkScore {
  is_sybil : bool;
  risk_score : Z;
  confidence : Z;
  verification_status : string
}.

(** [process_address] inside [batch_check_addresses]; [hash] is the
    built-in of the running interpreter and [threshold] is
    [request.threshold].  Python's [%] with a positive right operand is
    [Z.modulo]. *)
Definition process_address (hash : string -> Z) (threshold : Z)
    (address : string) : string * Score :=
  let address_hash := hash address in
  let is_sybil := (100 - threshold <? address_hash mod 100)%Z in
  let risk_score := (Z.abs address_hash mod 100)%Z in
  let confidence := (70 + Z.abs address_hash mod 30)%Z in
  let verification_status :=
    if (Z.abs address_hash mod 3 =? 0)%Z then "verified"
    else if (Z.abs address_hash mod 3 =? 1)%Z then "pending"
    else "unverified" in
  (address, mkScore is_sybil risk_score confidence verification_status).

(** The loop over [asyncio.as_completed(tasks)]: [completed] lists the
    addresses of the tasks in the order they finish. *)
Definition collect_results (hash : string -> Z) (threshold : Z)
    (completed : list string) : gmap string Score :=
  fold_left
    (fun (results : gmap string Score) (address : string) =>
       let x := process_address hash threshold address in
       <[x.1 := x.2]> results)
    completed ∅.

Record BatchCheckRequest := mkBatchCheckRequest {
  addresses : list string;
  threshold : Z
}.

Record BatchResult := mkBatchResult {
  batch_results : gmap string Score;
  batch_request_id : string;
  batch_timestamp : Q
}.

(** The result dictionary of [check_address], as kept under a [result:]
    key. *)
Record CheckResult := mkCheckResult {
  check_address_of : string;
  check_score : Score;
  check_request_id : string;
  check_timestamp : Q
}.

(** [batch_check_addresses]: [completed] is the order in which the tasks
    of [request.addresses] finish, [time] the reading of [time.time()]
    inside [redis_client.set]. *)
Definition batch_check_addresses (hash : string -> Z)
    (batches : Store.MockRedis BatchResult) (uuid_hex : string)
    (datetime_now time : Q) (request : BatchCheckRequest)
    (completed : list string)
    : BatchResult * Store.MockRedis BatchResult :=
  let results := collect_results hash (threshold request) completed in
  let request_id := "batch_" ++ uuid_hex in
  let batch_result := mkBatchResult results request_id datetime_now in
  (batch_result,
   Store.set batches time ("batch:" ++ request_id) batch_result (Some 3600%Z)).

(** [get_check_result]: the single result first, the batch result
    second. *)
Definition get_check_result (results : Store.MockRedis CheckResult)
    (batches : Store.MockRedis BatchResult) (time_result time_batch : Q)
    (request_id : string) : Reply (CheckResult + BatchResult) :=
  match Store.get results time_result ("result:" ++ request_id) with
  | Some result => Return (inl result)
  | None =>
      match Store.get batches time_batch ("batch:" ++ request_id) with
      | Some batch => Return (inr batch)
      | None => HTTPException 404 "Request ID not found"
      end
  end.

(** *** Verification endpoints *)

Record VerificationRequest := mkVerificationRequest {
  vreq_address : string;
  vreq_verification_type : string;
  vreq_callback_url : option string
}.

(** The JSON document kept under a [verification:] key; [verified_at] and
    [proof] are absent until a completion adds them.  Times of
    [datetime.now()] are seconds on the local clock. *)
Record Verification := mkVerification {
  v_address : string;
  v_verification_type : string;
  v_status : string;
  v_instructions : string;
  v_expires_at : Q;
  v_callback_url : option string;
  v_verified_at : option Q;
  v_proof : option pyval
}.

Record VerificationResponse := mkVerificationResponse {
  vresp_verification_id : string;
  vresp_address : string;
  vresp_verification_type : string;
  vresp_status : string;
  vresp_instructions : string;
  vresp_expires_at : Q
}.

Record VerificationStatusResponse := mkStatusResponse {
  st_verification_id : string;
  st_address : string;
  st_verification_type : string;
  st_status : string;
  st_timestamp : Q
}.

Definition double_quote : string :=
  String (Ascii.ascii_of_nat 34) EmptyString.

(** The instructions [start_verification] writes; [code] is
    [verification_id[:8]]. *)
Definition instructions_for (verification_type verification_id : string)
    : string :=
  let code := String.substring 0 8 verification_id in
  if String.eqb verification_type "social_twitter" then
    "Post a specific message on Twitter with the following content: "
    ++ "'Verifying my Aptos address with AptosSybilShield: " ++ code ++ "'"
  else if String.eqb verification_type "social_github" then
    "Create a public gist with filename 'aptos_verification.txt' containing: "
    ++ "'Verifying my Aptos address with AptosSybilShield: " ++ code ++ "'"
  else if String.eqb verification_type "did_web" then
    "Create a DID document at /.well-known/did.json on your web domain "
    ++ "with the following content: "
    ++ "{" ++ double_quote ++ "verification" ++ double_quote ++ ": "
    ++ double_quote ++ code ++ double_quote ++ "}"
  else if String.eqb verification_type "pop_captcha" then
    "Solve the CAPTCHA challenge at https://aptossybilshield.com/captcha/"
    ++ code
  else if String.eqb verification_type "kyc_basic" then
    "Complete the KYC process at https://aptossybilshield.com/kyc/" ++ code
  else "Default verification instructions".

Definition day : Z := 86400.

(** [start_verification]: [datetime_now] is read for [expires_at], [time]
    inside [redis_client.set]. *)
Definition start_verification (store : Store.MockRedis Verification)
    (uuid_hex : string) (datetime_now time : Q)
    (request : VerificationRequest)
    : VerificationResponse * Store.MockRedis Verification :=
  let verification_id := "ver_" ++ uuid_hex in
  let instructions :=
    instructions_for (vreq_verification_type request) verification_id in
  let expires_at := (datetime_now + inject_Z day)%Q in
  let verification_data :=
    mkVerification (vreq_address request) (vreq_verification_type request)
                   "pending" instructions expires_at
                   (vreq_callback_url request) None None in
  (mkVerificationResponse verification_id (vreq_address request)
                          (vreq_verification_type request) "pending"
                          instructions expires_at,
   Store.set store time ("verification:" ++ verification_id)
             verification_data (Some day)).

(** [check_verification_status]: [time] is read inside
    [redis_client.get], [datetime_now] for the timestamp. *)
Definition check_verification_status (store : Store.MockRedis Verification)
    (time datetime_now : Q) (verification_id : string)
    : Reply VerificationStatusResponse :=
  match Store.get store time ("verification:" ++ verification_id) with
  | None => HTTPException 404 "Verification ID not found"
  | Some verification =>
      Return (mkStatusResponse verification_id (v_address verification)
                               (v_verification_type verification)
                               (v_status verification) datetime_now)
  end.

(** The payload of the completion webhook. *)
Record WebhookEvent := mkWebhookEvent {
  ev_event : string;
  ev_verification_id : string;
  ev_address : string;
  ev_status : string;
  ev_timestamp : Q
}.

(** A call of [send_webhook] handed to [background_tasks]; the call passes
    no secret. *)
Record WebhookTask := mkWebhookTask {
  task_url : string;
  task_data : WebhookEvent
}.

(** Truth value of [verification["callback_url"]]. *)
Definition callback_of (url : option string) : option string :=
  match url with
  | Some u => if String.eqb u "" then None else Some u
  | None => None
  end.

(** The clock readings of one call of [complete_verification], in the
    order they are taken. *)
Record Readings := mkReadings {
  time_get : Q;
  datetime_check : Q;
  datetime_verified : Q;
  time_set : Q
}.

(** [complete_verification]: the reply, the store afterwards and the tasks
    added to [background_tasks]. *)
Definition complete_verification (store : Store.MockRedis Verification)
    (at_ : Readings) (verification_id : string) (proof : pyval)
    : Reply VerificationStatusResponse * Store.MockRedis Verification
      * list WebhookTask :=
  let key := "verification:" ++ verification_id in
  match Store.get store (time_get at_) key with
  | None => (HTTPException 404 "Verification ID not found", store, [])
  | Some verification =>
      if Limiter.Qltb (v_expires_at verification) (datetime_check at_) then
        (HTTPException 400 "Verification expired", store, [])
      else
        let verified_at := datetime_verified at_ in
        let verification' :=
          mkVerification (v_address verification)
                         (v_verification_type verification) "verified"
                         (v_instructions verification)
                         (v_expires_at verification)
                         (v_callback_url verification)
                         (Some verified_at) (Some proof) in
        let store' :=
          Store.set store (time_set at_) key verification' (Some day) in
        let tasks :=
          match callback_of (v_callback_url verification') with
          | Some url =>
              [mkWebhookTask url
                 (mkWebhookEvent "verification_complete" verification_id
                                 (v_address verification') "verified"
                                 verified_at)]
          | None => []
          end in
        (Return (mkStatusResponse verification_id (v_address verification')
                                  (v_verification_type verification')
                                  "verified" verified_at),
         store', tasks)
  end.

(** *** Webhook subscriptions *)

Record WebhookSubscriptionRequest := mkSubscriptionRequest {
  sreq_event_types : list string;
  sreq_url : string;
  sreq_secret : option string
}.

(** The JSON document kept under a [webhook:] key. *)
Record Webhook := mkWebhook {
  w_event_types : list string;
  w_url : string;
  w_secret : option string;
  w_api_key : string;
  w_created_at : Q
}.

Record WebhookSubscriptionResponse := mkSubscriptionResponse {
  sresp_subscription_id : string;
  sresp_event_types : list string;
  sresp_url : string;
  sresp_created_at : Q
}.

Definition year : Z := 31536000.

(** [subscribe_webhook]; [api_key] is what [validate_api_key] returned. *)
Definition subscribe_webhook (store : Store.MockRedis Webhook)
    (uuid_hex : string) (datetime_now time : Q) (api_key : string)
    (request : WebhookSubscriptionRequest)
    : WebhookSubscriptionResponse * Store.MockRedis Webhook :=
  let subscription_id := "sub_" ++ uuid_hex in
  let webhook_data :=
    mkWebhook (sreq_event_types request) (sreq_url request)
              (sreq_secret request) api_key datetime_now in
  (mkSubscriptionResponse subscription_id (sreq_event_types request)
                          (sreq_url request) (w_created_at webhook_data),
   Store.set store time ("webhook:" ++ subscription_id) webhook_data
             (Some year)).

(** [unsubscribe_webhook]; the reply carries the [status] of the returned
    dictionary. *)
Definition unsubscribe_webhook (store : Store.MockRedis Webhook) (time : Q)
    (api_key subscription_id : string)
    : Reply string * Store.MockRedis Webhook :=
  let key := "webhook:" ++ subscription_id in
  match Store.get store time key with
  | None => (HTTPException 404 "Subscription ID not found", store)
  | Some webhook =>
      if negb (String.eqb (w_api_key webhook) api_key) then
        (HTTPException 403 "Not authorized to delete this subscription",
         store)
      else (Return "unsubscribed", Store.delete store key)
  end.

(** *** Sending a webhook *)

(** What [session.post] comes to: a response with its status, or an
    exception (a refused connection, the timeout). *)
Inductive PostResult :=
| Response (status : Z)
| PostFailed.

(** What [send_webhook] does that can be seen from outside. *)
Inductive Action :=
| Post (attempt : nat)
| Sleep (seconds : Z)
| LogError.

(** The wait after a failed attempt, if there is one. *)
Definition backoff (max_retries : Z) (attempt : nat) : list Action :=
  if (Z.of_nat attempt <? max_retries - 1)%Z
  then [Sleep (2 ^ Z.of_nat attempt)%Z] else [].

(** The loop [for attempt in range(max_retries)] from [attempt] on, with
    [remaining] rounds to go; [post] gives the result of each attempt. *)
Fixpoint send_loop (post : nat -> PostResult) (max_retries : Z)
    (remaining attempt : nat) : list Action :=
  match remaining with
  | O => [LogError]
  | S remaining' =>
      let retry :=
        Post attempt ::
        app (backoff max_retries attempt)
            (send_loop post max_retries remaining' (S attempt)) in
      match post attempt with
      | Response status =>
          if (status <? 400)%Z then [Post attempt]
          else if (400 <=? status)%Z && (status <? 500)%Z
                  && negb (status =? 429)%Z
          then [Post attempt]
          else retry
      | PostFailed => retry
      end
  end.

(** [send_webhook]: every attempt posts the same body with the same
    headers. *)
Definition send_webhook (post : nat -> PostResult) (max_retries : Z)
    : list Action :=
  send_loop post max_retries (Z.to_nat max_retries) 0.

Definition is_post (a : Action) : bool :=
  match a with Post _ => true | _ => false end.

Definition slept (a : Action) : Z :=
  match a with Sleep seconds => seconds | _ => 0%Z end.

(** The seconds spent in [asyncio.sleep]. *)
Definition total_sleep (actions : list Action) : Z :=
  fold_right (fun a acc => (slept a + acc)%Z) 0%Z actions.

(** An attempt after which [send_webhook] returns. *)
Definition final (r : PostResult) : bool :=
  match r with
  | Response status =>
      (status <? 400)%Z
      || ((400 <=? status)%Z && (status <? 500)%Z && negb (status =? 429)%Z)
  | PostFailed => false
  end.

End ApiServer.

(** * Properties of the rate limiter *)

Module LimiterTheory.
Import Limiter.

#[local] Open Scope Q_scope.

Lemma Qltb_true (a b : Q) : Qltb a b = true <-> a < b.
Proof.
  unfold Qltb. rewrite negb_true_iff. split.
  - intros H. apply Qnot_le_lt. intros Hle.
    apply Qle_bool_iff in Hle. congruence.
  - intros H. destruct (Qle_bool b a) eqn:E; [|reflexivity].
    apply Qle_bool_iff in E. exfalso. apply (Qlt_not_le _ _ H E).
Qed.

Lemma Qltb_false (a b : Q) : Qltb a b = false <-> b <= a.
Proof. unfold Qltb. rewrite negb_false_iff. apply Qle_bool_iff. Qed.

Lemma Qsub_add (a c : Q) : a - c + c == a.
Proof. ring. Qed.

(** Every path of [consume] reads the store once, and writes it once
    exactly on the admitting paths. *)
Lemma consume_calls (r : MockRedis) (now : Q) (key : string)
    (cost rate capacity : Q) :
  let x := consume r now key cost rate capacity in
  length (List.filter is_get (calls_of x)) = 1%nat /\
  length (List.filter is_set (calls_of x))
    = (if admitted x then 1%nat else 0%nat).
Proof.
  unfold consume.
  destruct (get r now (bucket_key key)) as [b|];
    [destruct (Qltb (Qmin capacity _) cost) | destruct (Qltb capacity cost)];
    try (split; reflexivity);
    destruct (Qeq_bool rate 0); split; reflexivity.
Qed.

Lemma consume_denied_store (r : MockRedis) (now : Q) (key : string)
    (cost rate capacity : Q) :
  admitted (consume r now key cost rate capacity) = false ->
  store_after (consume r now key cost rate capacity) = r.
Proof.
  unfold consume.
  destruct (get r now (bucket_key key)) as [b|];
    [destruct (Qltb (Qmin capacity _) cost) | destruct (Qltb capacity cost)];
    try (cbn; congruence);
    destruct (Qeq_bool rate 0); cbn; congruence.
Qed.

(** What an admitting call leaves under the bucket key. *)
Lemma consume_admitted_bucket (r : MockRedis) (now : Q) (key : string)
    (cost rate capacity : Q) :
  admitted (consume r now key cost rate capacity) = true ->
  exists b, data (store_after (consume r now key cost rate capacity))
              !! bucket_key key = Some b /\
            last_refill b = now /\
            cost <= tokens b + cost /\ tokens b + cost <= capacity.
Proof.
  unfold consume.
  destruct (get r now (bucket_key key)) as [b|].
  - destruct (Qltb (Qmin capacity _) cost) eqn:E; cbn; [discriminate|].
    destruct (Qeq_bool rate 0); cbn; [discriminate|].
    intros _. eexists. rewrite lookup_insert_eq. split; [reflexivity|].
    cbn. split; [reflexivity|]. apply Qltb_false in E.
    split.
    + rewrite Qsub_add. exact E.
    + rewrite Qsub_add. apply Q.le_min_l.
  - destruct (Qltb capacity cost) eqn:E; cbn; [discriminate|].
    destruct (Qeq_bool rate 0); cbn; [discriminate|].
    intros _. eexists. rewrite lookup_insert_eq. split; [reflexivity|].
    cbn. split; [reflexivity|]. apply Qltb_false in E.
    split.
    + rewrite Qsub_add. exact E.
    + rewrite Qsub_add. apply Qle_refl.
Qed.


(** *** A fresh bucket at a standing clock *)

Lemma le_floor_iff (z : Z) (x : Q) : (z <= Qfloor x)%Z <-> inject_Z z <= x.
Proof.
  split.
  - intros H. apply Qle_trans with (inject_Z (Qfloor x)).
    + rewrite <- Zle_Qle. exact H.
    + apply Qfloor_le.
  - intros H. destruct (Z_le_gt_dec z (Qfloor x)) as [Hle|Hgt]; [exact Hle|].
    exfalso. assert (Hz : (Qfloor x + 1 <= z)%Z) by lia.
    rewrite Zle_Qle in Hz.
    apply (Qlt_irrefl x).
    eapply Qlt_le_trans; [apply Qlt_floor|].
    eapply Qle_trans; [exact Hz | exact H].
Qed.

Lemma le_div_iff (a cap cost : Q) :
  0 < cost -> (a <= cap / cost <-> a * cost <= cap).
Proof.
  intros Hc. split.
  - intros H.
    assert (Hne : ~ cost == 0).
    { intros E. rewrite E in Hc. exact (Qlt_irrefl 0 Hc). }
    rewrite <- (Qmult_div_r cap cost Hne).
    rewrite (Qmult_comm cost). apply Qmult_le_compat_r; [exact H|].
    apply Qlt_le_weak, Hc.
  - intros H. apply Qle_shift_div_l; assumption.
Qed.

Lemma py_int_nonneg (q : Q) : 0 <= q -> (0 <= py_int q)%Z.
Proof.
  intros H. unfold py_int. apply Z.quot_pos; [|lia].
  unfold Qle in H. simpl in H. lia.
Qed.

Section FreshBucket.

Variables (now : Q) (key : string) (cost rate capacity : Q).
Hypothesis capacity_pos : 0 < capacity.
Hypothesis rate_pos : 0 < rate.
Hypothesis cost_pos : 0 < cost.

Abbreviation bkey := (bucket_key key).
Abbreviation ex := (ttl rate capacity).
Abbreviation n := (quota cost capacity).
Abbreviation expiry_ahead := (expiry_ahead now bkey).
Abbreviation drained := (drained now key cost capacity).

Lemma ex_nonneg : (0 <= ex)%Z.
Proof.
  unfold ttl. apply py_int_nonneg.
  apply Qmult_le_0_compat; [|discriminate].
  apply Qle_shift_div_l; [exact rate_pos|].
  rewrite Qmult_0_l. apply Qlt_le_weak, capacity_pos.
Qed.

Lemma get_set_same (r : MockRedis) (b : Bucket) :
  ex <> 0%Z \/ expiry_ahead r ->
  get (set r now bkey b ex) now bkey = Some b /\
  expiry_ahead (set r now bkey b ex).
Proof.
  intros Hexp. unfold get, set, Limiter.expiry_ahead in *. cbn.
  rewrite lookup_insert_eq.
  destruct (Z.eqb_spec ex 0) as [E|E].
  - destruct Hexp as [Hexp|Hexp]; [contradiction|].
    destruct (expiry r !! bkey) as [e|]; [|auto].
    apply Qltb_true in Hexp as Hb. rewrite Hb. auto.
  - rewrite lookup_insert_eq.
    assert (Hlt : now < now + inject_Z ex).
    { rewrite <- (Qplus_0_r now) at 1.
      apply Qplus_lt_r. change 0 with (inject_Z 0). rewrite <- Zlt_Qlt.
      pose proof ex_nonneg. lia. }
    apply Qltb_true in Hlt as Hb. rewrite Hb. auto.
Qed.

Lemma rate_nonzero : Qeq_bool rate 0 = false.
Proof.
  destruct (Qeq_bool rate 0) eqn:E; [|reflexivity].
  apply Qeq_bool_eq in E. rewrite E in rate_pos.
  exfalso. exact (Qlt_irrefl 0 rate_pos).
Qed.

Lemma admits_iff (k : nat) :
  inject_Z (Z.of_nat (S k)) * cost <= capacity <-> (k < n)%nat.
Proof.
  rewrite <- le_div_iff by exact cost_pos.
  rewrite <- le_floor_iff. unfold quota. lia.
Qed.

Lemma drained_get (k : nat) (r : MockRedis) :
  drained k r ->
  exists b, get r now bkey = Some b /\ last_refill b == now /\
            tokens b == capacity - inject_Z (Z.of_nat k) * cost.
Proof.
  intros [Hexp (b & Hb & Hl & Ht)]. exists b. split; [|auto].
  unfold get, Limiter.expiry_ahead in *. rewrite Hb.
  destruct (expiry r !! bkey) as [e|]; [|reflexivity].
  apply Qltb_true in Hexp. rewrite Hexp. reflexivity.
Qed.

(** With no time elapsed the refill adds nothing. *)
Lemma refill_none (k : nat) (b : Bucket) :
  last_refill b == now ->
  tokens b == capacity - inject_Z (Z.of_nat k) * cost ->
  Qmin capacity (tokens b + (now - last_refill b) * rate)
    == capacity - inject_Z (Z.of_nat k) * cost.
Proof.
  intros Hl Ht. rewrite Hl, Ht.
  setoid_replace (capacity - inject_Z (Z.of_nat k) * cost + (now - now) * rate)
    with (capacity - inject_Z (Z.of_nat k) * cost) using relation Qeq by ring.
  apply Q.min_r.
  assert (0 <= inject_Z (Z.of_nat k) * cost).
  { apply Qmult_le_0_compat; [|apply Qlt_le_weak, cost_pos].
    change 0 with (inject_Z 0). rewrite <- Zle_Qle. lia. }
  lra.
Qed.

Lemma succ_cost (k : nat) :
  inject_Z (Z.of_nat (S k)) * cost == inject_Z (Z.of_nat k) * cost + cost.
Proof.
  rewrite Nat2Z.inj_succ. unfold Z.succ. rewrite inject_Z_plus. ring.
Qed.

Lemma drained_step (k : nat) (r : MockRedis) :
  drained k r ->
  let x := consume r now key cost rate capacity in
  if decide (k < n)%nat
  then outcome_of x = Returned true /\ drained (S k) (store_after x)
  else outcome_of x = Returned false /\ store_after x = r.
Proof.
  intros Hd. pose proof Hd as [Hexp _].
  destruct (drained_get k r Hd) as (b & Hget & Hl & Ht).
  pose proof (refill_none k b Hl Ht) as Hmin.
  cbn zeta. unfold consume. rewrite Hget, rate_nonzero.
  destruct (decide (k < n)%nat) as [Hk|Hk].
  - apply admits_iff in Hk. rewrite succ_cost in Hk.
    assert (Hge : Qltb (Qmin capacity
                          (tokens b + (now - last_refill b) * rate)) cost
                  = false).
    { apply Qltb_false. rewrite Hmin. lra. }
    rewrite Hge. cbn. split; [reflexivity|].
    destruct (get_set_same r
                (mkBucket (Qmin capacity
                             (tokens b + (now - last_refill b) * rate) - cost)
                          now) (or_intror Hexp)) as [_ Hexp'].
    split; [exact Hexp'|].
    eexists. split; [unfold set; cbn; apply lookup_insert_eq|].
    cbn. split; [reflexivity|]. rewrite Hmin, succ_cost. ring.
  - assert (Hlt : Qltb (Qmin capacity
                          (tokens b + (now - last_refill b) * rate)) cost
                  = true).
    { apply Qltb_true. rewrite Hmin.
      apply Qnot_le_lt. intros Hle. apply Hk, admits_iff.
      rewrite succ_cost. lra. }
    rewrite Hlt. cbn. auto.
Qed.

Lemma drained_run (j k : nat) (r : MockRedis) :
  drained k r -> (k + j = n)%nat ->
  (consume_n (S j) r now key cost rate capacity).1
    = (repeat (Returned true) j ++ [Returned false])%list.
Proof.
  revert k r. induction j as [|j IH]; intros k r Hd Hkj.
  - pose proof (drained_step k r Hd) as Hs. cbn zeta in Hs.
    destruct (decide (k < n)%nat); [lia|].
    destruct Hs as [Ha _]. cbn. rewrite Ha. reflexivity.
  - pose proof (drained_step k r Hd) as Hs. cbn zeta in Hs.
    destruct (decide (k < n)%nat); [|lia].
    destruct Hs as [Ha Hd'].
    change (consume_n (S (S j)) r now key cost rate capacity).1
      with (outcome_of (consume r now key cost rate capacity)
            :: (consume_n (S j)
                  (store_after (consume r now key cost rate capacity))
                  now key cost rate capacity).1).
    rewrite Ha, (IH (S k) _ Hd') by lia. reflexivity.
Qed.

(** The first call on a key the store has no entry for. *)
Lemma fresh_step (r : MockRedis) :
  get r now bkey = None ->
  ex <> 0%Z \/ expiry r !! bkey = None ->
  let x := consume r now key cost rate capacity in
  if decide (0 < n)%nat
  then outcome_of x = Returned true /\ drained 1 (store_after x)
  else outcome_of x = Returned false /\ store_after x = r.
Proof.
  intros Hget Hexp. cbn zeta. unfold consume.
  rewrite Hget, rate_nonzero.
  assert (Hahead : ex <> 0%Z \/ expiry_ahead r).
  { destruct Hexp as [Hexp|Hexp]; [left; exact Hexp|right].
    unfold Limiter.expiry_ahead. rewrite Hexp. exact I. }
  destruct (decide (0 < n)%nat) as [Hn|Hn].
  - apply admits_iff in Hn. change (inject_Z (Z.of_nat 1)) with 1 in Hn.
    assert (Hge : Qltb capacity cost = false) by (apply Qltb_false; lra).
    rewrite Hge. cbn. split; [reflexivity|].
    destruct (get_set_same r (mkBucket (capacity - cost) now) Hahead)
      as [_ Hexp'].
    split; [exact Hexp'|].
    eexists. split; [unfold set; cbn; apply lookup_insert_eq|].
    cbn. split; [reflexivity|]. change (inject_Z (Z.of_nat 1)) with 1. ring.
  - assert (Hlt : Qltb capacity cost = true).
    { apply Qltb_true. apply Qnot_le_lt. intros Hle. apply Hn, admits_iff.
      change (inject_Z (Z.of_nat 1)) with 1. lra. }
    rewrite Hlt. cbn. auto.
Qed.

Lemma fresh_run (r : MockRedis) :
  get r now bkey = None ->
  ex <> 0%Z \/ expiry r !! bkey = None ->
  (consume_n (S n) r now key cost rate capacity).1
    = (repeat (Returned true) n ++ [Returned false])%list.
Proof.
  intros Hdata Hexp. pose proof (fresh_step r Hdata Hexp) as Hs.
  cbn zeta in Hs. destruct (decide (0 < n)%nat) as [Hn|Hn].
  - destruct Hs as [Ha Hd]. destruct n as [|m] eqn:En; [lia|].
    change (consume_n (S (S m)) r now key cost rate capacity).1
      with (outcome_of (consume r now key cost rate capacity)
            :: (consume_n (S m)
                  (store_after (consume r now key cost rate capacity))
                  now key cost rate capacity).1).
    rewrite Ha. rewrite (drained_run m 1 _ Hd) by lia. reflexivity.
  - destruct Hs as [Ha _]. assert (En : n = 0%nat) by lia. rewrite En.
    cbn. rewrite Ha. reflexivity.
Qed.

End FreshBucket.

(** *** The claims about [consume] *)

(** C2 (as stated, refuted): a first call at time 0 takes the whole
    capacity of 10; half a second later one more token is asked for.  The
    bucket exists, the call is denied, and the store still holds the bucket
    with [last_refill = 0]: the refill time was not moved to [now], and no
    write was made. *)
Lemma consume_denied_does_not_persist :
  let r0 := store_after (consume empty_redis 0 "k" 10 1 10) in
  let now := 1 # 2 in
  let x := consume r0 now "k" 1 1 10 in
  (exists b, get r0 now (bucket_key "k") = Some b /\ tokens b == 0) /\
  outcome_of x = Returned false /\
  ~ (exists b, data (store_after x) !! bucket_key "k" = Some b /\
               last_refill b == now) /\
  length (List.filter is_set (calls_of x)) <> 1%nat.
Proof.
  cbn zeta. split; [eexists; split; reflexivity|].
  split; [reflexivity|]. split.
  - intros (b & Hb & Hl). vm_compute in Hb. injection Hb as <-.
    vm_compute in Hl. discriminate.
  - vm_compute. discriminate.
Qed.

(** C2 (amended): a denied call leaves the whole store as it was (tokens
    and [last_refill] of the bucket included) and makes the one read only;
    every call reads the store exactly once, and writes it exactly once
    when it admits and not at all otherwise. *)
Theorem consume_denied_is_read_only (r : MockRedis) (now : Q) (key : string)
    (cost rate capacity : Q) :
  let x := consume r now key cost rate capacity in
  length (List.filter is_get (calls_of x)) = 1%nat /\
  length (List.filter is_set (calls_of x))
    = (if admitted x then 1%nat else 0%nat) /\
  (outcome_of x = Returned false ->
   store_after x = r /\ calls_of x = [CallGet (bucket_key key)]).
Proof.
  cbn zeta. destruct (consume_calls r now key cost rate capacity) as [Hg Hs].
  split; [exact Hg|]. split; [exact Hs|].
  intros Hout. split.
  - apply consume_denied_store. unfold admitted. rewrite Hout. reflexivity.
  - revert Hout. unfold consume.
    destruct (get r now (bucket_key key)) as [b|];
      [destruct (Qltb (Qmin capacity _) cost)
      | destruct (Qltb capacity cost)];
      try reflexivity; destruct (Qeq_bool rate 0); discriminate.
Qed.

Lemma consume_denied_is_read_only_witness :
  let r0 := store_after (consume empty_redis 0 "k" 10 1 10) in
  let x := consume r0 (1 # 2) "k" 1 1 10 in
  store_after x = r0 /\ calls_of x = [CallGet (bucket_key "k")].
Proof.
  cbn zeta.
  apply (consume_denied_is_read_only
           (store_after (consume empty_redis 0 "k" 10 1 10)) (1 # 2) "k"
           1 1 10).
  reflexivity.
Defined.



(** The side condition of the run above is needed: under a key whose entry
    has expired, a bucket written without expiry ([int(1 / 10 * 2) = 0])
    stays unreadable, and every call finds a full bucket. *)
Example expired_entry_without_ttl :
  let r := mkRedis {[ bucket_key "k" := mkBucket 0 0 ]}
                   {[ bucket_key "k" := 5 ]} in
  get r 10 (bucket_key "k") = None /\
  quota 1 1 = 1%nat /\
  (consume_n 3 r 10 "k" 1 10 1).1
    = [Returned true; Returned true; Returned true].
Proof. repeat split. Qed.

(** C6: with a non-empty key, [cost >= 0], [rate > 0] and [capacity > 0],
    a call keeps the stored tokens of the bucket at or below [capacity],
    and after an admitting call the stored tokens are not negative. *)
Theorem consume_preserves_bucket_invariant (r : MockRedis) (now : Q)
    (key : string) (cost rate capacity : Q) :
  key <> "" -> 0 <= cost -> 0 < rate -> 0 < capacity ->
  let x := consume r now key cost rate capacity in
  ((forall b, data r !! bucket_key key = Some b -> tokens b <= capacity) ->
   forall b', data (store_after x) !! bucket_key key = Some b' ->
              tokens b' <= capacity) /\
  (admitted x = true ->
   exists b', data (store_after x) !! bucket_key key = Some b' /\
              0 <= tokens b' /\ tokens b' <= capacity).
Proof.
  intros _ Hcost _ _. cbn zeta.
  assert (Hadm : admitted (consume r now key cost rate capacity) = true ->
                 exists b', data (store_after
                                    (consume r now key cost rate capacity))
                              !! bucket_key key = Some b' /\
                            0 <= tokens b' /\ tokens b' <= capacity).
  { intros Ha.
    destruct (consume_admitted_bucket r now key cost rate capacity Ha)
      as (b & Hb & _ & Hlo & Hhi).
    exists b. split; [exact Hb|]. split; lra. }
  split; [|exact Hadm].
  intros Hinv b' Hb'.
  destruct (admitted (consume r now key cost rate capacity)) eqn:Ha.
  - destruct (Hadm eq_refl) as (b & Hb & _ & Hhi). congruence.
  - rewrite (consume_denied_store _ _ _ _ _ _ Ha) in Hb'. eauto.
Qed.

Lemma consume_preserves_bucket_invariant_witness :
  let x := consume empty_redis 0 "api:test_api_key" 1 (5 # 3) 100 in
  ((forall b, data empty_redis !! bucket_key "api:test_api_key" = Some b ->
              tokens b <= 100) ->
   forall b', data (store_after x) !! bucket_key "api:test_api_key" = Some b' ->
              tokens b' <= 100) /\
  (admitted x = true ->
   exists b', data (store_after x) !! bucket_key "api:test_api_key" = Some b' /\
              0 <= tokens b' /\ tokens b' <= 100).
Proof.
  apply (consume_preserves_bucket_invariant empty_redis 0 "api:test_api_key"
           1 (5 # 3) 100); [discriminate | discriminate | reflexivity
                           | reflexivity].
Defined.

End LimiterTheory.

(** * Properties of the verifiers and of the manager *)

Module VerificationTheory.
Import VerificationManager Scenario.
Module P := ProofOfPersonhoodVerifier.

#[local] Open Scope Z_scope.

(** *** Proof of personhood: completion *)

(** C3 (the code at the failing input): starting a captcha verification
    raises [NameError] for the unbound global [np], for every address and
    whatever the verifier holds; the id has been generated, no session is
    stored. *)
Theorem pop_captcha_start_raises (vt : string) (last : option string)
    (sessions : gmap string P.Session) (env : Env) (address : string) :
  P.start_verification (P.mk vt last "captcha" sessions) env address
  = (Raise (NameError "np"),
     P.mk vt (Some (generate_verification_id vt env address)) "captcha"
          sessions).
Proof. reflexivity. Qed.

(** The same through the manager: the exception reaches the caller and no
    record is stored. *)
Lemma manager_captcha_start_raises (env : Env) (address : string) :
  let m := register_verifier init (Pop (P.init "captcha")) in
  (start_verification m env "pop_captcha" address).1 = Raise (NameError "np")
  /\ verification_records (start_verification m env "pop_captcha" address).2
     = [].
Proof. split; reflexivity. Qed.

(** With [np] bound the same start returns: a pending result with the
    arithmetic question, and the session with the expected answer is
    stored under the new id. *)
Lemma captcha_start_with_numpy :
  P.start_verification_in with_numpy (P.init "captcha") (env_at 1 "aa")
    "0xabc"
  = (Ok [("verification_id", VStr captcha_id);
         ("verification_type", VStr "pop_captcha");
         ("method", VStr "captcha");
         ("address", VStr "0xabc");
         ("challenge",
          VDict [("type", VStr "text_captcha");
                 ("question", VStr "What is 3 + 4?");
                 ("answer", VStr "7")]);
         ("instructions",
          VStr "Solve the CAPTCHA challenge and submit your answer");
         ("status", VStr "pending")],
     P.mk "pop_captcha" (Some captcha_id) "captcha"
          {[ captcha_id := captcha_session ]}).
Proof. reflexivity. Qed.

Lemma captcha_manager_state :
  captcha_manager
  = mk {[ "pop_captcha" := Pop captcha_verifier ]}
       [(captcha_id, mkRecord "pop_captcha" "0xabc" "pending" 1 None None)].
Proof. reflexivity. Qed.

Lemma str_eq_val_true (p : string) (answer : pyval) :
  P.str_eq_val p answer = true <-> answer = VStr p.
Proof.
  destruct answer; cbn; try (split; [discriminate | intros [=]]).
  split.
  - intros H. apply String.eqb_eq in H. congruence.
  - intros [= ->]. apply String.eqb_refl.
Qed.

(** The verdict on a proof for a captcha session that has an answer. *)
Lemma verify_proof_captcha (self : P.t) (s : P.Session) (proof answer : pyval) :
  P.method self = "captcha" ->
  subscript (P.challenge s) "answer" = Ok answer ->
  exists b, P.verify_proof self s proof = Ok b /\
            (b = true <-> exists p, proof = VStr p /\ answer = VStr p).
Proof.
  intros Hm Ha. unfold P.verify_proof. rewrite Hm. cbn.
  destruct proof as [| |z|p|items];
    try (exists false; split; [reflexivity|];
         split; [discriminate | intros (p' & [=] & _)]).
  rewrite Ha. exists (P.str_eq_val p answer). split; [reflexivity|].
  rewrite str_eq_val_true. split.
  - intros ->. eauto.
  - intros (p' & [= ->] & ->). reflexivity.
Qed.

(** One completion of a known captcha verification, by cases on the attempt
    number [a] it becomes and on the verdict. *)
Lemma pop_complete_captcha (self : P.t) (env : Env) (vid : string)
    (s : P.Session) (proof answer : pyval) :
  P.verification_sessions self !! vid = Some s ->
  P.method self = "captcha" ->
  subscript (P.challenge s) "answer" = Ok answer ->
  let a := P.attempts s + 1 in
  let correct := exists p, proof = VStr p /\ answer = VStr p in
  exists result s',
    P.complete_verification self env vid proof
      = (Ok result, P.store self vid s') /\
    P.attempts s' = a /\
    P.max_attempts s' = P.max_attempts s /\
    (P.max_attempts s < a ->
       status_of result = Some (VStr "failed") /\ P.status s' = "failed") /\
    (a <= P.max_attempts s -> correct ->
       status_of result = Some (VStr "verified") /\
       P.status s' = "verified") /\
    (a < P.max_attempts s -> ~ correct ->
       status_of result = Some (VStr "pending") /\
       P.status s' = P.status s) /\
    (a = P.max_attempts s -> ~ correct ->
       status_of result = Some (VStr "failed") /\ P.status s' = "failed").
Proof.
  intros Hs Hm Ha a correct. unfold P.complete_verification. rewrite Hs.
  cbn [P.max_attempts P.attempts P.with_attempts].
  fold a.
  destruct (Z.ltb_spec (P.max_attempts s) a) as [Hgt|Hle].
  - eexists _, _. split; [reflexivity|]. cbn.
    repeat split; auto; lia.
  - destruct (verify_proof_captcha self (P.with_attempts s a) proof answer
                Hm Ha) as (b & Hv & Hb).
    rewrite Hv. destruct b.
    + eexists _, _. split; [reflexivity|]. cbn.
      assert (Hc : correct) by (apply Hb; reflexivity).
      repeat split; auto; try lia; intros; contradiction.
    + assert (Hc : ~ correct) by (intros Hc; apply Hb in Hc; discriminate).
      cbn [P.max_attempts P.attempts P.with_attempts].
      destruct (Z.leb_spec (P.max_attempts s) a) as [Hge|Hlt].
      * eexists _, _. split; [reflexivity|]. cbn.
        repeat split; auto; try lia; intros; contradiction.
      * eexists _, _. split; [reflexivity|]. cbn.
        repeat split; auto; try lia; intros; contradiction.
Qed.




(** C10: on a known captcha verification a proof that is not a string, or
    a string other than the stored answer, never raises: [attempts] is
    incremented, and the report is pending while the incremented count is
    below [max_attempts] and failed once it has reached it. *)
Theorem pop_wrong_proof_is_counted (self : P.t) (env : Env) (vid : string)
    (s : P.Session) (proof answer : pyval) :
  P.verification_sessions self !! vid = Some s ->
  P.method self = "captcha" ->
  subscript (P.challenge s) "answer" = Ok answer ->
  ~ (exists p, proof = VStr p /\ answer = VStr p) ->
  exists result s',
    P.complete_verification self env vid proof
      = (Ok result, P.store self vid s') /\
    P.attempts s' = P.attempts s + 1 /\
    status_of result
      = Some (VStr (if P.attempts s + 1 <? P.max_attempts s
                    then "pending" else "failed")).
Proof.
  intros Hs Hm Ha Hwrong.
  destruct (pop_complete_captcha self env vid s proof answer Hs Hm Ha)
    as (result & s' & Hc & Hatt & _ & Hgt & _ & Hpend & Hlast).
  exists result, s'. split; [exact Hc|]. split; [exact Hatt|].
  destruct (Z.ltb_spec (P.attempts s + 1) (P.max_attempts s)) as [Hlt|Hge].
  - apply Hpend; assumption.
  - destruct (Z.eq_dec (P.attempts s + 1) (P.max_attempts s)) as [He|Hne].
    + apply Hlast; assumption.
    + apply Hgt. lia.
Qed.

Lemma pop_wrong_proof_is_counted_witness :
  exists result s',
    P.complete_verification captcha_verifier (env_at 2 "bb") captcha_id
      (VInt 7)
      = (Ok result, P.store captcha_verifier captcha_id s') /\
    P.attempts s' = 0 + 1 /\
    status_of result = Some (VStr "pending").
Proof.
  apply (pop_wrong_proof_is_counted captcha_verifier (env_at 2 "bb")
           captcha_id captcha_session (VInt 7) (VStr "7"));
    [reflexivity | reflexivity | reflexivity |].
  intros (p & Hp & _). discriminate Hp.
Defined.

(** *** The manager: unknown ids and the history *)

(** C7: for an id the manager has no record of, checking and completing
    both return the not-found dictionary, whatever the proof; nothing is
    raised and the manager (records and verifiers) is left as it was. *)
Theorem unknown_id_is_not_found (m : t) (env : Env) (vid : string)
    (proof : pyval) :
  od_get (verification_records m) vid = None ->
  check_verification_status m vid = (Ok (not_found vid), m) /\
  complete_verification m env vid proof = (Ok (not_found vid), m) /\
  status_of (not_found vid) = Some (VStr "not_found").
Proof.
  intros H. unfold check_verification_status, complete_verification.
  rewrite H. repeat split.
Qed.

Lemma unknown_id_is_not_found_witness :
  check_verification_status twitter_twice "nonexistent"
    = (Ok (not_found "nonexistent"), twitter_twice) /\
  complete_verification twitter_twice (env_at 3 "cc") "nonexistent"
    (VStr "anything") = (Ok (not_found "nonexistent"), twitter_twice) /\
  status_of (not_found "nonexistent") = Some (VStr "not_found").
Proof.
  apply (unknown_id_is_not_found twitter_twice (env_at 3 "cc") "nonexistent"
           (VStr "anything")).
  reflexivity.
Defined.

(** The loop of [get_verification_history] as a filter and a map. *)
Lemma history_loop (addr : string) (l : records) (acc : list HistoryEntry) :
  fold_left
    (fun (history : list HistoryEntry) (item : string * Record_) =>
       if String.eqb (address item.2) addr
       then app history [entry_of item.1 item.2]
       else history) l acc
  = app acc
      (map (fun item => entry_of item.1 item.2)
         (List.filter (fun item => String.eqb (address item.2) addr) l)).
Proof.
  revert acc. induction l as [|item l IH]; intros acc; cbn.
  - symmetry. apply app_nil_r.
  - rewrite IH. destruct (String.eqb (address item.2) addr); cbn.
    + rewrite <- app_assoc. reflexivity.
    + reflexivity.
Qed.

Lemma sorted_filter (A : Type) (f : A -> Z) (keep : A -> bool) (l : list A) :
  StronglySorted Z.le (map f l) ->
  StronglySorted Z.le (map f (List.filter keep l)).
Proof.
  induction l as [|x l IH]; cbn; intros H; [constructor|].
  apply StronglySorted_inv in H as [Hs Hall].
  destruct (keep x); cbn; [|auto].
  constructor; [auto|].
  rewrite List.Forall_forall in *. intros y Hy.
  apply Hall. rewrite List.in_map_iff in *.
  destruct Hy as (z & <- & Hz). exists z. split; [reflexivity|].
  apply List.filter_In in Hz. tauto.
Qed.

(** C9 (as stated, refuted): two verifications of one address are started
    at clock readings 1 and 2.  The history lists the one started at 1
    first: the order is oldest first, not newest first. *)
Lemma history_lists_oldest_first :
  map h_started_at (get_verification_history twitter_twice "0xabc") = [1; 2]
  /\ ~ StronglySorted Z.ge
        (map h_started_at (get_verification_history twitter_twice "0xabc")).
Proof.
  split; [reflexivity|]. intros H.
  change (StronglySorted Z.ge [1; 2]) in H.
  apply StronglySorted_inv in H as [_ H].
  apply Forall_inv in H. lia.
Qed.

(** C9 (amended): the history of an address is the projection of exactly
    the stored records with that address, in the order the store keeps them
    (the order of first insertion), so oldest first when the store is in
    start order; the function only reads the manager. *)
Theorem history_in_store_order (m : t) (addr : string) :
  get_verification_history m addr
  = map (fun item => entry_of item.1 item.2)
      (List.filter (fun item => String.eqb (address item.2) addr)
         (verification_records m)) /\
  (forall e, In e (get_verification_history m addr) <->
             exists vid record,
               In (vid, record) (verification_records m) /\
               address record = addr /\ e = entry_of vid record) /\
  (StronglySorted Z.le
     (map (fun item => started_at item.2) (verification_records m)) ->
   StronglySorted Z.le
     (map h_started_at (get_verification_history m addr))).
Proof.
  assert (Heq : get_verification_history m addr
                = map (fun item => entry_of item.1 item.2)
                    (List.filter
                       (fun item => String.eqb (address item.2) addr)
                       (verification_records m))).
  { unfold get_verification_history. rewrite history_loop. reflexivity. }
  split; [exact Heq|]. rewrite Heq. split.
  - intros e. rewrite List.in_map_iff. split.
    + intros ([vid record] & <- & Hin).
      apply List.filter_In in Hin as [Hin Ha].
      exists vid, record. cbn in *. apply String.eqb_eq in Ha. auto.
    + intros (vid & record & Hin & Ha & ->). exists (vid, record).
      split; [reflexivity|]. apply List.filter_In. split; [exact Hin|].
      cbn. apply String.eqb_eq, Ha.
  - intros Hs. rewrite map_map. cbn.
    apply (sorted_filter _ (fun item => started_at item.2)). exact Hs.
Qed.

(** *** The manager: statuses kept by the verifiers *)

Lemma advances_refl (o : option string) : advances o o.
Proof. left. reflexivity. Qed.

Lemma advances_not_pending (o o' : option string) :
  advances o o' ->
  (exists s, o = Some s /\ s <> "pending") ->
  exists s', o' = Some s' /\ s' <> "pending".
Proof.
  intros [->|[_ [->| ->]]] H; [exact H| |]; eexists; (split; [reflexivity|]);
    discriminate.
Qed.

Lemma advances_written (o o' : option string) :
  advances o o' ->
  (forall s, o = Some s -> written_status s) ->
  forall s', o' = Some s' -> written_status s'.
Proof.
  unfold written_status.
  intros [->|[_ [->| ->]]] H s' Hs'; [auto| |]; injection Hs' as <-; auto.
Qed.

(** A check reads the verifier and reports the stored status. *)
Lemma verifier_check_reads (v : Verifier) (vid : string) :
  (verifier_check v vid).2 = v.
Proof.
  destruct v as [ty last|s|d|p]; cbn; [reflexivity| | |].
  - unfold SocialMediaVerifier.check_verification_status.
    destruct (_ !! vid); reflexivity.
  - unfold DecentralizedIDVerifier.check_verification_status.
    destruct (_ !! vid); reflexivity.
  - unfold ProofOfPersonhoodVerifier.check_verification_status.
    destruct (_ !! vid); reflexivity.
Qed.

Lemma verifier_check_status (v : Verifier) (vid : string) (result : dict) :
  (verifier_check v vid).1 = Ok result ->
  exists s, subscript_str result "status" = Ok s /\
            status_of result = Some (VStr s) /\
            (s = "not_found" \/ verifier_session_status v vid = Some s).
Proof.
  destruct v as [ty last|s|d|p]; cbn; [discriminate| | |].
  - unfold SocialMediaVerifier.check_verification_status.
    destruct (_ !! vid) as [c|]; cbn; intros [= <-]; eexists;
      (split; [reflexivity|]); (split; [reflexivity|]); auto.
  - unfold DecentralizedIDVerifier.check_verification_status.
    destruct (_ !! vid) as [c|]; cbn; intros [= <-]; eexists;
      (split; [reflexivity|]); (split; [reflexivity|]); auto.
  - unfold ProofOfPersonhoodVerifier.check_verification_status.
    destruct (_ !! vid) as [c|]; cbn; intros [= <-]; eexists;
      (split; [reflexivity|]); (split; [reflexivity|]); auto.
Qed.

(** A start stores a pending session under the id it issues and touches no
    other. *)
Lemma verifier_start_status (globals : list string) (v : Verifier)
    (env : Env) (addr vid : string) :
  verifier_session_status (verifier_start_in globals v env addr).2 vid
    = verifier_session_status v vid \/
  (generate_verification_id (type_of v) env addr = vid /\
   verifier_session_status (verifier_start_in globals v env addr).2 vid
     = Some "pending").
Proof.
  destruct v as [ty last|s|d|p]; cbn; [auto| | |].
  - rewrite lookup_insert. case_decide; [right|left]; auto.
  - rewrite lookup_insert. case_decide; [right|left]; auto.
  - unfold ProofOfPersonhoodVerifier.start_verification_in.
    destruct (ProofOfPersonhoodVerifier._generate_challenge _ _ env);
      cbn; [|auto].
    rewrite lookup_insert. case_decide; [right|left]; auto.
Qed.

(** A completion leaves every stored status as it was or moves the one it
    is about to verified or failed. *)
Lemma verifier_complete_advances (v : Verifier) (env : Env)
    (vid' : string) (proof : pyval) (vid : string) :
  advances (verifier_session_status v vid)
           (verifier_session_status (verifier_complete v env vid' proof).2 vid).
Proof.
  destruct v as [ty last|s|d|p]; cbn; [apply advances_refl| | |].
  - unfold SocialMediaVerifier.complete_verification.
    destruct (_ !! vid') as [c|] eqn:Hc; [|apply advances_refl].
    assert (Hgoal : advances
              (SocialMediaVerifier.status
                 <$> SocialMediaVerifier.verification_challenges s !! vid)
              (SocialMediaVerifier.status
                 <$> <[vid' := SocialMediaVerifier.mkSession
                                 (SocialMediaVerifier.address c)
                                 (SocialMediaVerifier.challenge c)
                                 "verified"
                                 (SocialMediaVerifier.timestamp c)
                                 (SocialMediaVerifier.platform_of c)
                                 (Some proof) (Some (clock env))]>
                       (SocialMediaVerifier.verification_challenges s)
                     !! vid)).
    { rewrite lookup_insert. case_decide as E; [|apply advances_refl].
      subst vid'. rewrite Hc. right. cbn. split; [eauto|auto]. }
    destruct proof; exact Hgoal.
  - unfold DecentralizedIDVerifier.complete_verification.
    destruct (_ !! vid') as [c|] eqn:Hc; [|apply advances_refl].
    destruct proof; cbn; rewrite lookup_insert;
      (case_decide as E; [|apply advances_refl]);
      subst vid'; rewrite Hc; right; cbn; (split; [eauto|auto]).
  - unfold ProofOfPersonhoodVerifier.complete_verification.
    destruct (_ !! vid') as [c|] eqn:Hc; [|apply advances_refl].
    cbn [ProofOfPersonhoodVerifier.max_attempts
           ProofOfPersonhoodVerifier.attempts
           ProofOfPersonhoodVerifier.with_attempts].
    destruct (_ <? _)%Z.
    + cbn. rewrite lookup_insert. case_decide as E; [|apply advances_refl].
      subst vid'. rewrite Hc. right. cbn. split; [eauto|auto].
    + destruct (ProofOfPersonhoodVerifier.verify_proof _ _ _) as [[|]|e].
      * cbn. rewrite lookup_insert. case_decide as E; [|apply advances_refl].
        subst vid'. rewrite Hc. right. cbn. split; [eauto|auto].
      * destruct (_ <=? _)%Z; cbn; rewrite lookup_insert;
          (case_decide as E; [|apply advances_refl]);
          subst vid'; rewrite Hc; [right|left]; cbn;
          [split; [eauto|auto] | reflexivity].
      * cbn. rewrite lookup_insert. case_decide as E; [|apply advances_refl].
        subst vid'. rewrite Hc. left. reflexivity.
Qed.

Lemma verifier_step_advances (globals : list string) (v : Verifier)
    (op : Op) (vid : string) :
  reissues v vid op = false ->
  advances (verifier_session_status v vid)
           (verifier_session_status (verifier_step globals v op) vid).
Proof.
  destruct op as [env ty addr|vid'|env vid' proof]; cbn [verifier_step].
  - cbn. intros Hne.
    destruct (verifier_start_status globals v env addr vid) as [->|[Heq _]];
      [apply advances_refl|].
    apply String.eqb_neq in Hne. contradiction.
  - intros _. rewrite verifier_check_reads. apply advances_refl.
  - intros _. apply verifier_complete_advances.
Qed.

Lemma verifier_step_wf (globals : list string) (v : Verifier) (op : Op) :
  verifier_wf v -> verifier_wf (verifier_step globals v op).
Proof.
  unfold verifier_wf. intros Hwf vid.
  destruct op as [env ty addr|vid'|env vid' proof]; cbn [verifier_step].
  - destruct (verifier_start_status globals v env addr vid) as [->|[_ ->]];
      [apply Hwf|].
    intros s [= <-]. left. reflexivity.
  - rewrite verifier_check_reads. apply Hwf.
  - apply (advances_written _ _
             (verifier_complete_advances v env vid' proof vid)), Hwf.
Qed.

(** The registry after an operation: the verifier the operation was
    dispatched to has made its step, the others are untouched. *)
Lemma step_verifiers (globals : list string) (m : t) (op : Op) :
  verifiers (step_in globals m op).2
  = match target m op with
    | Some ty =>
        match verifiers m !! ty with
        | Some v => <[ty := verifier_step globals v op]> (verifiers m)
        | None => verifiers m
        end
    | None => verifiers m
    end.
Proof.
  destruct op as [env ty addr|vid|env vid proof]; cbn.
  - unfold start_verification_in.
    destruct (verifiers m !! ty) as [v|]; [|reflexivity].
    cbn zeta.
    destruct (verifier_start_in globals v env addr).1 as [result|e];
      [|reflexivity].
    destruct (subscript_str result "verification_id"); reflexivity.
  - unfold check_verification_status.
    destruct (od_get (verification_records m) vid) as [record|];
      [|reflexivity].
    cbn. destruct (verifiers m !! verification_type record) as [v|];
      [|reflexivity].
    cbn zeta. destruct (verifier_check v vid).1 as [result|e]; [|reflexivity].
    destruct (subscript_str result "status"); reflexivity.
  - unfold complete_verification.
    destruct (od_get (verification_records m) vid) as [record|];
      [|reflexivity].
    cbn. destruct (verifiers m !! verification_type record) as [v|];
      [|reflexivity].
    cbn zeta. destruct (verifier_complete v env vid proof).1 as [result|e];
      [|reflexivity].
    destruct (subscript_str result "status"); reflexivity.
Qed.

Lemma step_session_status (globals : list string) (m : t) (op : Op)
    (ty vid : string) :
  (forall ty' v, target m op = Some ty' -> verifiers m !! ty' = Some v ->
                 reissues v vid op = false) ->
  advances (session_status m ty vid)
           (session_status (step_in globals m op).2 ty vid).
Proof.
  intros Hfresh. unfold session_status. rewrite step_verifiers.
  destruct (target m op) as [ty'|] eqn:Ht; [|apply advances_refl].
  destruct (verifiers m !! ty') as [v|] eqn:Hv; [|apply advances_refl].
  rewrite lookup_insert. case_decide as E; [|apply advances_refl].
  subst ty'. rewrite Hv.
  apply verifier_step_advances, (Hfresh ty v); auto.
Qed.

Lemma reachable_wf (m : t) :
  reachable m ->
  forall ty v, verifiers m !! ty = Some v -> verifier_wf v.
Proof.
  induction 1 as [|m v Hm IH Hv|globals m op Hm IH]; intros ty w Hw.
  - cbn in Hw. rewrite lookup_empty in Hw. discriminate.
  - cbn in Hw. rewrite lookup_insert in Hw. case_decide as E.
    + injection Hw as <-. intros vid s.
      destruct Hv; cbn; try discriminate;
        rewrite lookup_empty; discriminate.
    + eauto.
  - rewrite step_verifiers in Hw.
    destruct (target m op) as [ty'|]; [|eauto].
    destruct (verifiers m !! ty') as [v|] eqn:Hv; [|eauto].
    rewrite lookup_insert in Hw. case_decide as E; [|eauto].
    injection Hw as <-. apply verifier_step_wf. eauto.
Qed.

Lemma od_get_set (d : records) (k : string) (v : Record_) :
  od_get (od_set d k v) k = Some v.
Proof.
  induction d as [|[k' v'] d IH]; cbn.
  - rewrite String.eqb_refl. reflexivity.
  - destruct (String.eqb k' k) eqn:E; cbn.
    + rewrite String.eqb_refl. reflexivity.
    + rewrite E. exact IH.
Qed.

Lemma od_set_set (d : records) (k : string) (v v' : Record_) :
  od_set (od_set d k v) k v' = od_set d k v'.
Proof.
  induction d as [|[k' w] d IH]; cbn.
  - rewrite String.eqb_refl. reflexivity.
  - destruct (String.eqb k' k) eqn:E; cbn.
    + rewrite String.eqb_refl. reflexivity.
    + rewrite E, IH. reflexivity.
Qed.

Lemma run_cons (globals : list string) (m : t) (op : Op) (ops : list Op) :
  run_in globals m (op :: ops) = run_in globals (step_in globals m op).2 ops.
Proof. reflexivity. Qed.







Lemma history_in_store_order_witness :
  StronglySorted Z.le
    (map h_started_at (get_verification_history twitter_twice "0xabc")).
Proof.
  apply (history_in_store_order twitter_twice "0xabc").
  change (StronglySorted Z.le [1; 2]).
  repeat constructor. lia.
Defined.

End VerificationTheory.

(** * Properties of the limiter over time and across keys *)

Module TrafficTheory.
Import Limiter Traffic.

#[local] Open Scope Q_scope.

Lemma bucket_key_inj (k1 k2 : string) :
  bucket_key k1 = bucket_key k2 -> k1 = k2.
Proof. unfold bucket_key. intros H. by simplify_eq/=. Qed.

(** A call touches no key but the bucket key of its own. *)
Lemma consume_other_key (r : MockRedis) (now : Q) (key : string)
    (cost rate capacity : Q) (k : string) :
  k <> bucket_key key ->
  data (store_after (consume r now key cost rate capacity)) !! k
    = data r !! k /\
  expiry (store_after (consume r now key cost rate capacity)) !! k
    = expiry r !! k.
Proof.
  intros Hk. unfold consume, store_after, set.
  destruct (get r now (bucket_key key)); repeat case_match; simpl;
    rewrite ?lookup_insert_ne by done; done.
Qed.

Lemma get_other_key (r : MockRedis) (now : Q) (key : string)
    (cost rate capacity : Q) (k : string) (time : Q) :
  k <> bucket_key key ->
  get (store_after (consume r now key cost rate capacity)) time k
    = get r time k.
Proof.
  intros Hk. unfold get.
  destruct (consume_other_key r now key cost rate capacity k Hk) as [-> ->].
  done.
Qed.

(** X1: the calls made for one key change no answer given for another key,
    whatever the costs, rates and capacities, and leave every other key of
    the store as it reads. *)
Theorem consume_keys_are_independent (r : MockRedis) (key1 key2 : string)
    (t1 cost1 rate1 capacity1 t2 cost2 rate2 capacity2 : Q) :
  key1 <> key2 ->
  let r1 := store_after (consume r t1 key1 cost1 rate1 capacity1) in
  outcome_of (consume r1 t2 key2 cost2 rate2 capacity2)
    = outcome_of (consume r t2 key2 cost2 rate2 capacity2) /\
  (forall k time, k <> bucket_key key1 -> get r1 time k = get r time k).
Proof.
  intros Hne r1. split.
  - assert (Hk : bucket_key key2 <> bucket_key key1)
      by (intros H; apply Hne; symmetry; by apply bucket_key_inj).
    pose proof (get_other_key r t1 key1 cost1 rate1 capacity1 _ t2 Hk)
      as Hget.
    fold r1 in Hget. unfold consume. rewrite Hget.
    destruct (get r t2 (bucket_key key2)); repeat case_match; done.
  - intros k time Hk. by apply get_other_key.
Qed.

Lemma consume_keys_are_independent_witness :
  let r1 := store_after (consume empty_redis 0 "api:alice" 1 1 1) in
  outcome_of (consume r1 0 "api:bob" 1 1 1)
    = outcome_of (consume empty_redis 0 "api:bob" 1 1 1) /\
  (forall k time, k <> bucket_key "api:alice" ->
                  get r1 time k = get empty_redis time k).
Proof.
  apply (consume_keys_are_independent empty_redis "api:alice" "api:bob"
           0 1 1 1 0 1 1 1).
  discriminate.
Defined.



(** ** The level of a bucket *)

Lemma last_cons (l : list Q) (a d : Q) :
  List.last (a :: l) d = List.last l a.
Proof.
  revert a d. induction l as [|b l IH]; intros a d; [done|].
  change (List.last (a :: b :: l) d) with (List.last (b :: l) d).
  by rewrite !IH.
Qed.

Lemma py_int_floor (q : Q) : 0 <= q -> py_int q = Qfloor q.
Proof.
  intros Hq. destruct q as [n d]. unfold py_int, Qfloor. simpl.
  apply Z.quot_div_nonneg; [|lia].
  unfold Qle in Hq. simpl in Hq. lia.
Qed.

Section Window.

Variables (key : string) (cost rate capacity : Q).
Hypothesis capacity_pos : 0 < capacity.
Hypothesis rate_pos : 0 < rate.
Hypothesis cost_nonneg : 0 <= cost.

Abbreviation bkey := (bucket_key key).
Abbreviation ex := (ttl rate capacity).
Abbreviation level := (level rate capacity key).
Abbreviation settled := (settled rate capacity key).
Abbreviation call := (fun r now => consume r now key cost rate capacity).

Lemma rate_not_zero : Qeq_bool rate 0 = false.
Proof.
  destruct (Qeq_bool rate 0) eqn:E; [|done].
  apply Qeq_bool_eq in E. rewrite E in rate_pos.
  by apply Qlt_irrefl in rate_pos.
Qed.

(** A time-to-live that is not 0 is long enough to fill the bucket. *)
Lemma ttl_fills : ex <> 0%Z -> capacity <= inject_Z ex * rate.
Proof.
  intros Hex. unfold ttl in *.
  assert (Hx : 0 <= capacity / rate * 2).
  { apply Qmult_le_0_compat; [|lra].
    apply Qle_shift_div_l; [done|lra]. }
  rewrite (py_int_floor _ Hx) in *.
  set (x := capacity / rate * 2) in *.
  assert (H0 : (0 <= Qfloor x)%Z)
    by (apply LimiterTheory.le_floor_iff; exact Hx).
  assert (H1 : (1 <= Qfloor x)%Z) by lia.
  assert (Hlt : x < inject_Z (Qfloor x + 1)) by apply Qlt_floor.
  rewrite inject_Z_plus in Hlt.
  assert (H1q : inject_Z 1 <= inject_Z (Qfloor x))
    by (rewrite <- Zle_Qle; lia).
  change (inject_Z 1) with 1 in H1q, Hlt.
  assert (Hhalf : capacity / rate <= inject_Z (Qfloor x)) by (unfold x in *; lra).
  assert (Hmul : capacity / rate * rate <= inject_Z (Qfloor x) * rate)
    by (apply Qmult_le_compat_r; lra).
  assert (Heq : capacity / rate * rate == capacity)
    by (field; intros E; rewrite E in rate_pos;
        by apply Qlt_irrefl in rate_pos).
  lra.
Qed.

Lemma settled_later (t t' : Q) (r : MockRedis) :
  settled t r -> t <= t' -> settled t' r.
Proof.
  unfold Traffic.settled. destruct (data r !! bkey); [|done].
  intros (H1 & H2 & H3 & H4) Hle. repeat split; try done. lra.
Qed.

Lemma level_le_capacity (t : Q) (r : MockRedis) : level t r <= capacity.
Proof.
  unfold Traffic.level. destruct (data r !! bkey); [|lra]. apply Q.le_min_l.
Qed.

Lemma level_nonneg (t : Q) (r : MockRedis) : settled t r -> 0 <= level t r.
Proof.
  unfold Traffic.settled, Traffic.level. destruct (data r !! bkey); [|lra].
  intros (H1 & H2 & H3 & _). apply Q.min_glb; [lra|].
  assert (0 <= (t - last_refill b) * rate)
    by (apply Qmult_le_0_compat; lra).
  lra.
Qed.

(** The level grows by at most [rate] a second. *)
Lemma level_grows (t t' : Q) (r : MockRedis) :
  t <= t' -> level t' r <= level t r + rate * (t' - t).
Proof.
  intros Hle. unfold Traffic.level.
  assert (0 <= rate * (t' - t)) by (apply Qmult_le_0_compat; lra).
  destruct (data r !! bkey) as [b|]; [|lra].
  set (a := tokens b + (t - last_refill b) * rate).
  set (a' := tokens b + (t' - last_refill b) * rate).
  assert (Ha : a' == a + rate * (t' - t)) by (unfold a, a'; ring).
  destruct (Q.min_spec capacity a) as [[? ->]|[? ->]];
    destruct (Q.min_spec capacity a') as [[? ->]|[? ->]]; lra.
Qed.

(** What a call reads is the level: an entry that has expired had filled
    up. *)
Lemma get_level (t : Q) (r : MockRedis) :
  settled t r ->
  match get r t bkey with
  | Some b =>
      data r !! bkey = Some b /\ 0 <= tokens b /\
      Qmin capacity (tokens b + (t - last_refill b) * rate) == level t r
  | None => level t r == capacity
  end.
Proof.
  unfold Traffic.settled, Traffic.level, get.
  destruct (data r !! bkey) as [b|]; [|reflexivity].
  intros (H1 & H2 & H3 & H4).
  destruct (expiry r !! bkey) as [e|]; [|repeat split; try done; reflexivity].
  destruct H4 as [Hex He].
  destruct (Qltb t e) eqn:E; [repeat split; try done; reflexivity|].
  apply LimiterTheory.Qltb_false in E.
  pose proof (ttl_fills Hex) as Hfill.
  assert (Hm : inject_Z ex * rate <= (t - last_refill b) * rate)
    by (apply Qmult_le_compat_r; lra).
  apply Q.min_l. lra.
Qed.

(** The decision of a call, the level it leaves, and the entry it
    leaves. *)
Lemma consume_level (t : Q) (r : MockRedis) :
  settled t r ->
  let x := call r t in
  settled t (store_after x) /\
  outcome_of x = Returned (Qle_bool cost (level t r)) /\
  level t (store_after x)
    == level t r - (if Qle_bool cost (level t r) then cost else 0).
Proof.
  intros Hs. pose proof (get_level t r Hs) as Hg.
  pose proof (level_le_capacity t r) as Hcap.
  unfold consume, outcome_of, store_after.
  destruct (get r t bkey) as [b|] eqn:Hget.
  - destruct Hg as (Hdata & Htok & Hlev).
    set (new_tokens := Qmin capacity (tokens b + (t - last_refill b) * rate))
      in *.
    destruct (Qltb new_tokens cost) eqn:E.
    + apply LimiterTheory.Qltb_true in E.
      assert (Hq : Qle_bool cost (level t r) = false).
      { destruct (Qle_bool cost (level t r)) eqn:E'; [|done].
        apply Qle_bool_iff in E'. lra. }
      rewrite Hq. simpl. repeat split; [done|]. lra.
    + apply LimiterTheory.Qltb_false in E.
      assert (Hq : Qle_bool cost (level t r) = true)
        by (apply Qle_bool_iff; lra).
      rewrite Hq, rate_not_zero. simpl. repeat split.
      * unfold Traffic.settled, set. simpl.
        rewrite lookup_insert_eq. simpl.
        repeat split; [lra|lra|lra|].
        destruct (Z.eqb_spec ex 0) as [E0|E0].
        -- unfold Traffic.settled in Hs. rewrite Hdata in Hs.
           destruct Hs as (_ & _ & _ & Hs).
           destruct (expiry r !! bkey); [by destruct Hs|done].
        -- rewrite lookup_insert_eq. split; [done|reflexivity].
      * unfold Traffic.level at 1. unfold set. simpl.
        rewrite lookup_insert_eq. simpl. rewrite Q.min_r; lra.
  - destruct (Qltb capacity cost) eqn:E.
    + apply LimiterTheory.Qltb_true in E.
      assert (Hq : Qle_bool cost (level t r) = false).
      { destruct (Qle_bool cost (level t r)) eqn:E'; [|done].
        apply Qle_bool_iff in E'. lra. }
      rewrite Hq. simpl. repeat split; [done|]. lra.
    + apply LimiterTheory.Qltb_false in E.
      assert (Hq : Qle_bool cost (level t r) = true)
        by (apply Qle_bool_iff; lra).
      rewrite Hq, rate_not_zero. simpl. repeat split.
      * unfold Traffic.settled, set. simpl.
        rewrite lookup_insert_eq. simpl.
        repeat split; [lra|lra|lra|].
        destruct (Z.eqb_spec ex 0) as [E0|E0].
        -- unfold Traffic.settled, get in Hs, Hget.
           destruct (data r !! bkey) as [b|].
           ++ destruct Hs as (_ & _ & _ & Hs).
              destruct (expiry r !! bkey); [by destruct Hs|done].
           ++ destruct Hs as [Hs| ->]; done.
        -- rewrite lookup_insert_eq. split; [done|reflexivity].
      * unfold Traffic.level at 1. unfold set. simpl.
        rewrite lookup_insert_eq. simpl. rewrite Q.min_r; lra.
Qed.

Lemma count_cons (o : Outcome) (os : list Outcome) :
  inject_Z (Z.of_nat (count_true (o :: os))) * cost
  == (if returned_true o then cost else 0)
     + inject_Z (Z.of_nat (count_true os)) * cost.
Proof.
  unfold count_true. simpl. destruct (returned_true o); simpl; [|ring].
  rewrite Nat2Z.inj_succ, <- Z.add_1_r, inject_Z_plus. ring.
Qed.

(** Over a run at clock readings that do not go back, what the admitted
    calls cost and what is left in the bucket is paid for by what was there
    and what flowed in. *)
Lemma run_level (times : list Q) (t : Q) (r : MockRedis) :
  settled t r ->
  StronglySorted Qle (t :: times) ->
  let x := consume_at times r key cost rate capacity in
  settled (List.last times t) x.2 /\
  inject_Z (Z.of_nat (count_true x.1)) * cost + level (List.last times t) x.2
    <= level t r + rate * (List.last times t - t).
Proof.
  revert t r. induction times as [|t' ts IH]; intros t r Hs Hsorted.
  - cbn [consume_at fst snd List.last]. split; [done|].
    change (inject_Z (Z.of_nat (count_true []))) with 0. lra.
  - assert (Hle : t <= t').
    { inversion Hsorted as [|? ? _ Hall]. by inversion Hall. }
    assert (Hsorted' : StronglySorted Qle (t' :: ts)).
    { inversion Hsorted as [|? ? Hs' _]. done. }
    pose proof (settled_later t t' r Hs Hle) as Hs'.
    destruct (consume_level t' r Hs') as (Hs1 & Hout & Hlev).
    specialize (IH t' _ Hs1 Hsorted'). destruct IH as [IH1 IH2].
    rewrite last_cons.
    change (consume_at (t' :: ts) r key cost rate capacity)
      with (outcome_of (call r t')
              :: (consume_at ts (store_after (call r t')) key cost rate
                    capacity).1,
            (consume_at ts (store_after (call r t')) key cost rate
               capacity).2).
    cbn [fst snd]. split; [exact IH1|].
    rewrite count_cons. rewrite Hout. cbn [returned_true].
    pose proof (level_grows t t' r Hle) as Hg.
    set (c := inject_Z (Z.of_nat (count_true _)) * cost) in *.
    destruct (Qle_bool cost (level t' r)); lra.
Qed.

Lemma sorted_app (l1 l2 : list Q) :
  StronglySorted Qle (l1 ++ l2)%list ->
  StronglySorted Qle l1 /\ StronglySorted Qle l2 /\
  forall a b, In a l1 -> In b l2 -> a <= b.
Proof.
  induction l1 as [|x l1 IH]; simpl; intros H.
  - repeat split; [constructor|done|intros ? ? []].
  - inversion H as [|? ? Hs Hall]. subst.
    destruct (IH Hs) as (H1 & H2 & H3).
    rewrite List.Forall_forall in Hall.
    repeat split; [|done|].
    + constructor; [done|]. apply List.Forall_forall.
      intros y Hy. apply Hall. apply in_or_app. by left.
    + intros a b [<-|Ha] Hb; [|by apply H3].
      apply Hall. apply in_or_app. by right.
Qed.

Lemma last_in (l : list Q) (d : Q) : l <> [] -> In (List.last l d) l.
Proof.
  induction l as [|a l IH]; [done|]. intros _.
  destruct l as [|b l]; [by left|].
  right. change (List.last (a :: b :: l) d) with (List.last (b :: l) d).
  by apply IH.
Qed.

(** The state a run from a store without an entry leaves is settled at any
    later reading. *)
Lemma run_settled (pre : list Q) (t0 : Q) (r : MockRedis) :
  data r !! bkey = None ->
  ex <> 0%Z \/ expiry r !! bkey = None ->
  StronglySorted Qle (pre ++ [t0])%list ->
  settled t0 (consume_at pre r key cost rate capacity).2.
Proof.
  intros Hdata Hex Hsorted.
  assert (Hany : forall t, settled t r).
  { intros t. unfold Traffic.settled. by rewrite Hdata. }
  destruct pre as [|p0 ps]; [apply Hany|].
  destruct (sorted_app _ _ Hsorted) as (Hpre & _ & Hcross).
  destruct (run_level ps p0 _ (proj1 (consume_level p0 r (Hany p0))))
    as [Hs _].
  { inversion Hpre; subst. by constructor. }
  eapply settled_later; [exact Hs|].
  apply Hcross; [|by left].
  destruct ps as [|p1 ps]; [by left|].
  right. apply last_in. done.
Qed.

End Window.





End TrafficTheory.

(** * Properties of the store *)

Module StoreTheory.
Import Store.

#[local] Open Scope Q_scope.

Section Values.

Context {V : Type}.
Implicit Types (r : MockRedis V) (key k : string) (v : V).

Lemma get_set_other r time key v ex k t :
  k <> key -> get (set r time key v ex) t k = get r t k.
Proof.
  intros Hk. unfold get, set. simpl.
  rewrite lookup_insert_ne by done.
  destruct ex as [seconds|]; [|done].
  destruct (Z.eqb seconds 0); [done|].
  by rewrite lookup_insert_ne.
Qed.

Lemma get_set_ttl r time key v seconds t :
  seconds <> 0%Z ->
  get (set r time key v (Some seconds)) t key
  = if Limiter.Qltb t (time + inject_Z seconds) then Some v else None.
Proof.
  intros Hs. unfold get, set. simpl.
  rewrite lookup_insert_eq.
  destruct (Z.eqb_spec seconds 0) as [|_]; [done|].
  by rewrite lookup_insert_eq.
Qed.

Lemma get_delete r key t : get (delete r key) t key = None.
Proof. unfold get, delete. simpl. by rewrite lookup_delete_eq. Qed.

Lemma get_delete_other r key k t :
  k <> key -> get (delete r key) t k = get r t k.
Proof.
  intros Hk. unfold get, delete. simpl.
  by rewrite !lookup_delete_ne.
Qed.

End Values.

(** X5: a value written with a time-to-live is read back until the
    time-to-live has passed and not from then on, and the write changes
    what no other key reads. *)
Theorem set_then_get_until_expiry (V : Type) (r : MockRedis V)
    (time : Q) (key : string) (v : V) (seconds : Z) :
  seconds <> 0%Z ->
  (forall t, t < time + inject_Z seconds ->
             get (set r time key v (Some seconds)) t key = Some v) /\
  (forall t, time + inject_Z seconds <= t ->
             get (set r time key v (Some seconds)) t key = None) /\
  (forall k t, k <> key ->
               get (set r time key v (Some seconds)) t k = get r t k).
Proof.
  intros Hs. repeat split.
  - intros t Ht. rewrite get_set_ttl by done.
    apply LimiterTheory.Qltb_true in Ht. by rewrite Ht.
  - intros t Ht. rewrite get_set_ttl by done.
    apply LimiterTheory.Qltb_false in Ht. by rewrite Ht.
  - intros k t Hk. by apply get_set_other.
Qed.

Lemma set_then_get_until_expiry_witness :
  (forall t, t < 10 + inject_Z 60 ->
             get (set (@empty string) 10 "cache:a" "x" (Some 60%Z)) t "cache:a"
             = Some "x") /\
  (forall t, 10 + inject_Z 60 <= t ->
             get (set (@empty string) 10 "cache:a" "x" (Some 60%Z)) t "cache:a"
             = None) /\
  (forall k t, k <> "cache:a" ->
               get (set (@empty string) 10 "cache:a" "x" (Some 60%Z)) t k
               = get empty t k).
Proof.
  apply (set_then_get_until_expiry string empty 10 "cache:a" "x" 60).
  discriminate.
Defined.

(** X6: a write without a time-to-live ([ex] left out, or 0) does not clear
    the expiry an earlier write left on the key: the new value is read only
    until that old expiry. *)
Theorem set_without_ttl_keeps_old_expiry (V : Type) (r : MockRedis V)
    (time : Q) (key : string) (v : V) (ex : option Z) (e t : Q) :
  expiry r !! key = Some e ->
  ex = None \/ ex = Some 0%Z ->
  get (set r time key v ex) t key
  = if Limiter.Qltb t e then Some v else None.
Proof.
  intros He Hex. unfold get, set. simpl. rewrite lookup_insert_eq.
  destruct Hex as [-> | ->]; simpl; by rewrite He.
Qed.

Lemma set_without_ttl_keeps_old_expiry_witness :
  let r := set (@empty string) 0 "k" "old" (Some 5%Z) in
  get (set r 10 "k" "new" None) 10 "k"
  = if Limiter.Qltb 10 (0 + inject_Z 5) then Some "new" else None.
Proof.
  apply (set_without_ttl_keeps_old_expiry string
           (set (@empty string) 0 "k" "old" (Some 5%Z)) 10 "k" "new" None
           (0 + inject_Z 5) 10).
  - reflexivity.
  - left. reflexivity.
Defined.

(** X7: a deleted key reads as absent, the other keys read as before, and
    the deletion takes the expiry with it: a value written afterwards
    without a time-to-live is read at every later time. *)
Theorem delete_then_get (V : Type) (r : MockRedis V) (key : string) :
  (forall t, get (delete r key) t key = None) /\
  (forall k t, k <> key -> get (delete r key) t k = get r t k) /\
  (forall time v t, get (set (delete r key) time key v None) t key = Some v).
Proof.
  repeat split.
  - intros t. apply get_delete.
  - intros k t Hk. by apply get_delete_other.
  - intros time v t. unfold get, set, delete. simpl.
    by rewrite lookup_insert_eq, lookup_delete_eq.
Qed.

Lemma delete_then_get_witness :
  let r := set (@empty string) 0 "k" "old" (Some 5%Z) in
  (forall t, get (delete r "k") t "k" = None) /\
  (forall k t, k <> "k" -> get (delete r "k") t k = get r t k) /\
  (forall time v t, get (set (delete r "k") time "k" v None) t "k" = Some v).
Proof.
  apply (delete_then_get string (set (@empty string) 0 "k" "old" (Some 5%Z))
           "k").
Defined.

Lemma incr_n_from (n : nat) (r : MockRedis Z) (key : string) (c : Z) :
  default 0%Z (data r !! key) = c ->
  (incr_n n r key).1 = map (fun i => (c + Z.of_nat i)%Z) (seq 1 n) /\
  data (incr_n n r key).2 !! key
    = (if n is O then data r !! key else Some (c + Z.of_nat n)%Z) /\
  expiry (incr_n n r key).2 = expiry r.
Proof.
  revert r c. induction n as [|n IH]; intros r c Hc; [done|].
  cbn [incr_n fst snd].
  assert (Hstep : (incr r key).1 = (c + 1)%Z /\
                  data (incr r key).2 !! key = Some (c + 1)%Z /\
                  expiry (incr r key).2 = expiry r).
  { unfold incr. destruct (data r !! key) as [m|]; simpl in *; subst;
      rewrite lookup_insert_eq; done. }
  destruct Hstep as (H1 & H2 & H3).
  destruct (IH (incr r key).2 (c + 1)%Z) as (I1 & I2 & I3);
    [by rewrite H2|].
  rewrite H1, I1, I3, H3. repeat split.
  - cbn [seq map]. f_equal.
    rewrite <- (seq_shift n 1), List.map_map.
    apply List.map_ext. intros i. lia.
  - rewrite I2. destruct n; [rewrite H2; f_equal; lia|f_equal; lia].
Qed.

(** X8: [n] increments of a counter holding [c] (0 for an absent key)
    return [c + 1], ..., [c + n]; they neither set nor look at an expiry, so
    that a counter whose expiry has passed goes on counting from its old
    value. *)
Theorem incr_counts_on (n : nat) (r : MockRedis Z) (key : string) :
  let c := default 0%Z (data r !! key) in
  (incr_n n r key).1 = map (fun i => (c + Z.of_nat i)%Z) (seq 1 n) /\
  expiry (incr_n n r key).2 = expiry r.
Proof.
  intros c. destruct (incr_n_from n r key c eq_refl) as (H1 & _ & H3).
  by split.
Qed.

End StoreTheory.

(** * Properties of the API server *)

Module ApiServerTheory.
Import ApiServer.

#[local] Open Scope Q_scope.

(** ** API keys *)



(** Requests with a registered key are calls of [consume] on its bucket. *)
Lemma validate_n_consume_n (n : nat) (api_keys : gmap string ApiKey)
    (buckets : Limiter.MockRedis) (now : Q) (api_key : string)
    (info : ApiKey) :
  api_keys !! api_key = Some info ->
  let limit := inject_Z (key_rate_limit info) in
  let y :=
    Limiter.consume_n n buckets now ("api:" ++ api_key) 1 (limit / 60) limit in
  (validate_n n api_keys buckets now api_key).1
  = map (fun o => match o with
                  | Limiter.Returned true => Return api_key
                  | Limiter.Returned false =>
                      HTTPException 429 "Rate limit exceeded"
                  | Limiter.ZeroDivisionError => Unhandled "ZeroDivisionError"
                  end) y.1 /\
  (validate_n n api_keys buckets now api_key).2 = y.2.
Proof.
  intros Hkey limit. revert buckets.
  induction n as [|n IH]; intros buckets; [done|].
  cbn [validate_n Limiter.consume_n fst snd map].
  set (c := Limiter.consume buckets now ("api:" ++ api_key) 1 (limit / 60)
              limit).
  assert (Hstep :
    validate_api_key api_keys buckets now api_key
    = (match Limiter.outcome_of c with
       | Limiter.Returned true => Return api_key
       | Limiter.Returned false => HTTPException 429 "Rate limit exceeded"
       | Limiter.ZeroDivisionError => Unhandled "ZeroDivisionError"
       end, Limiter.store_after c)).
  { unfold validate_api_key. rewrite Hkey. fold limit. fold c.
    by destruct (Limiter.outcome_of c) as [[|]|]. }
  rewrite Hstep. cbn [fst snd].
  destruct (IH (Limiter.store_after c)) as [IH1 IH2].
  by rewrite IH1, IH2.
Qed.

Lemma ttl_of_api_key (limit : Z) :
  (1 <= limit)%Z ->
  Limiter.ttl (inject_Z limit / 60) (inject_Z limit) = 120%Z.
Proof.
  intros Hl. unfold Limiter.ttl.
  assert (Hpos : 0 < inject_Z limit)
    by (change 0 with (inject_Z 0); rewrite <- Zlt_Qlt; lia).
  assert (Hq : inject_Z limit / (inject_Z limit / 60) * 2 == inject_Z 120).
  { change (inject_Z 120) with 120. field.
    repeat split; try discriminate.
    all: intros E; rewrite E in Hpos; by apply Qlt_irrefl in Hpos. }
  rewrite TrafficTheory.py_int_floor.
  - rewrite Hq. apply Qfloor_Z.
  - rewrite Hq. discriminate.
Qed.

(** X10: a key fresh from [create_api_key] with [rate_limit = n] passes
    exactly [n] requests made at one clock reading, and the next one is
    answered 429. *)
Theorem new_key_passes_rate_limit_requests (api_keys : gmap string ApiKey)
    (buckets : Limiter.MockRedis) (uuid_hex : string) (created now : Q)
    (request : ApiKeyRequest) :
  (1 <= req_rate_limit request)%Z ->
  Limiter.get buckets now (Limiter.bucket_key ("api:" ++ "ask_" ++ uuid_hex))
    = None ->
  let x := create_api_key api_keys uuid_hex created request in
  let api_key := resp_api_key x.1 in
  let n := Z.to_nat (req_rate_limit request) in
  api_key = "ask_" ++ uuid_hex /\
  (validate_n (S n) x.2 buckets now api_key).1
  = (repeat (Return api_key) n
       ++ [HTTPException 429 "Rate limit exceeded"])%list.
Proof.
  intros Hlimit Hget x api_key n. split; [done|].
  set (info := mkApiKey (req_user_id request) (req_rate_limit request)
                 created).
  assert (Hkey : x.2 !! api_key = Some info)
    by (unfold x, api_key, create_api_key; simpl; apply lookup_insert_eq).
  destruct (validate_n_consume_n (S n) x.2 buckets now api_key info Hkey)
    as [-> _].
  cbn [key_rate_limit info].
  set (limit := inject_Z (req_rate_limit request)).
  assert (Hpos : 0 < limit)
    by (unfold limit; change 0 with (inject_Z 0); rewrite <- Zlt_Qlt; lia).
  assert (Hquota : Limiter.quota 1 limit = n).
  { unfold Limiter.quota, n, limit. f_equal.
    assert (Hq : inject_Z (req_rate_limit request) / 1
                 == inject_Z (req_rate_limit request)) by (field; discriminate).
    rewrite Hq. apply Qfloor_Z. }
  pose proof (LimiterTheory.fresh_run now ("api:" ++ api_key) 1 (limit / 60)
                limit) as Hrun.
  rewrite Hquota in Hrun. rewrite Hrun.
  - rewrite List.map_app, List.map_repeat. done.
  - done.
  - apply Qlt_shift_div_l; [reflexivity|]. lra.
  - reflexivity.
  - exact Hget.
  - left. unfold limit. rewrite ttl_of_api_key by done. discriminate.
Qed.

Lemma new_key_passes_rate_limit_requests_witness :
  let x := create_api_key ∅ "c0ffee" 0 (mkApiKeyRequest "alice" 2) in
  let api_key := resp_api_key x.1 in
  api_key = "ask_" ++ "c0ffee" /\
  (validate_n 3 x.2 Limiter.empty_redis 5 api_key).1
  = [Return api_key; Return api_key;
     HTTPException 429 "Rate limit exceeded"].
Proof.
  apply (new_key_passes_rate_limit_requests ∅ Limiter.empty_redis "c0ffee"
           0 5 (mkApiKeyRequest "alice" 2)).
  - simpl. lia.
  - reflexivity.
Defined.

(** ** Scoring *)

(** X11: whatever the hash of the address, the risk score lies between 0
    and 99, the confidence between 70 and 99, the status is one of three,
    and the result is filed under the address that was asked for. *)
Theorem scores_are_in_range (hash : string -> Z) (threshold : Z)
    (address : string) :
  let x := process_address hash threshold address in
  x.1 = address /\
  (0 <= risk_score x.2 <= 99)%Z /\
  (70 <= confidence x.2 <= 99)%Z /\
  (verification_status x.2 = "verified" \/
   verification_status x.2 = "pending" \/
   verification_status x.2 = "unverified").
Proof.
  intros x. unfold x, process_address. simpl.
  pose proof (Z.mod_pos_bound (Z.abs (hash address)) 100 eq_refl).
  pose proof (Z.mod_pos_bound (Z.abs (hash address)) 30 eq_refl).
  repeat split; try lia.
  repeat case_match; auto.
Qed.

(** X12: the flag grows with the threshold: an address flagged at one
    threshold is flagged at every higher one, and none is flagged at a
    threshold of 0 or 1. *)
Theorem is_sybil_grows_with_threshold (hash : string -> Z)
    (address : string) (threshold threshold' : Z) :
  (threshold <= threshold')%Z ->
  (is_sybil (process_address hash threshold address).2 = true ->
   is_sybil (process_address hash threshold' address).2 = true) /\
  (threshold' <= 1 ->
   is_sybil (process_address hash threshold address).2 = false)%Z.
Proof.
  intros Hle. unfold process_address. simpl.
  pose proof (Z.mod_pos_bound (hash address) 100 eq_refl).
  split.
  - intros H1. apply Z.ltb_lt in H1. apply Z.ltb_lt. lia.
  - intros H1. apply Z.ltb_ge. lia.
Qed.

Lemma is_sybil_grows_with_threshold_witness :
  (is_sybil (process_address (fun _ => 150%Z) 60 "0xabcdef0123").2 = true ->
   is_sybil (process_address (fun _ => 150%Z) 70 "0xabcdef0123").2 = true) /\
  (70 <= 1 ->
   is_sybil (process_address (fun _ => 150%Z) 60 "0xabcdef0123").2 = false)%Z.
Proof.
  apply (is_sybil_grows_with_threshold (fun _ => 150%Z) "0xabcdef0123" 60 70).
  lia.
Defined.

Lemma collect_loop (hash : string -> Z) (threshold : Z)
    (completed : list string) (acc : gmap string Score) (a : string) :
  fold_left
    (fun (results : gmap string Score) (address : string) =>
       let x := process_address hash threshold address in
       <[x.1 := x.2]> results)
    completed acc !! a
  = if decide (a ∈ completed)
    then Some (process_address hash threshold a).2
    else acc !! a.
Proof.
  assert (Hfst : forall c, (process_address hash threshold c).1 = c) by done.
  revert acc. induction completed as [|c l IH]; intros acc;
    cbn [fold_left].
  - destruct (decide (a ∈ [])) as [H|H]; [by apply elem_of_nil in H|done].
  - rewrite IH, Hfst.
    destruct (decide (a ∈ l)) as [Hin|Hin];
      destruct (decide (a ∈ c :: l)) as [Hin'|Hin']; try done.
    + exfalso. apply Hin'. by right.
    + apply elem_of_cons in Hin' as [->|?]; [|done].
      by rewrite lookup_insert_eq.
    + rewrite lookup_insert_ne; [done|].
      intros ->. apply Hin'. by left.
Qed.

(** X13: the results of a batch hold, for each address of the batch and no
    other, the score of that address; the order in which the tasks finish
    changes nothing. *)
Theorem batch_results_ignore_completion_order (hash : string -> Z)
    (threshold : Z) (completed completed' : list string) :
  Permutation completed completed' ->
  (forall a, collect_results hash threshold completed !! a
             = if decide (a ∈ completed)
               then Some (process_address hash threshold a).2 else None) /\
  collect_results hash threshold completed'
    = collect_results hash threshold completed.
Proof.
  intros Hp. split.
  - intros a. unfold collect_results. by rewrite collect_loop, lookup_empty.
  - apply map_eq. intros a. unfold collect_results.
    rewrite !collect_loop, !lookup_empty.
    destruct (decide (a ∈ completed')) as [H1|H1];
      destruct (decide (a ∈ completed)) as [H2|H2]; try done.
    + by rewrite <- Hp in H1.
    + by rewrite Hp in H2.
Qed.

Lemma batch_results_ignore_completion_order_witness :
  (forall a, collect_results (fun _ => 150%Z) 70 ["0xa"; "0xb"] !! a
             = if decide (a ∈ ["0xa"; "0xb"])
               then Some (process_address (fun _ => 150%Z) 70 a).2 else None)
  /\
  collect_results (fun _ => 150%Z) 70 ["0xb"; "0xa"]
    = collect_results (fun _ => 150%Z) 70 ["0xa"; "0xb"].
Proof.
  apply (batch_results_ignore_completion_order (fun _ => 150%Z) 70
           ["0xa"; "0xb"] ["0xb"; "0xa"]).
  apply perm_swap.
Defined.

(** X14: the result of a batch check is fetched under its request id for
    an hour from the moment it was stored, and answered 404 from then on,
    unless a single result is kept under the same id. *)
Theorem batch_result_is_kept_for_an_hour (hash : string -> Z)
    (results : Store.MockRedis CheckResult)
    (batches : Store.MockRedis BatchResult) (uuid_hex : string)
    (datetime_now time : Q) (request : BatchCheckRequest)
    (completed : list string) (time_result time_batch : Q) :
  Store.get results time_result ("result:" ++ "batch_" ++ uuid_hex) = None ->
  let x :=
    batch_check_addresses hash batches uuid_hex datetime_now time request
      completed in
  get_check_result results x.2 time_result time_batch (batch_request_id x.1)
  = if Limiter.Qltb time_batch (time + inject_Z 3600)
    then Return (inr x.1)
    else HTTPException 404 "Request ID not found".
Proof.
  intros Hres x. unfold x, batch_check_addresses, get_check_result.
  cbn [fst snd batch_request_id]. rewrite Hres.
  rewrite StoreTheory.get_set_ttl by done.
  by destruct (Limiter.Qltb time_batch (time + inject_Z 3600)).
Qed.

Lemma batch_result_is_kept_for_an_hour_witness :
  let x :=
    batch_check_addresses (fun _ => 150%Z) Store.empty "beef" 0 0
      (mkBatchCheckRequest ["0xa"; "0xb"] 70) ["0xb"; "0xa"] in
  get_check_result Store.empty x.2 10 10 (batch_request_id x.1)
  = if Limiter.Qltb 10 (0 + inject_Z 3600)
    then Return (inr x.1)
    else HTTPException 404 "Request ID not found".
Proof.
  apply (batch_result_is_kept_for_an_hour (fun _ => 150%Z) Store.empty
           Store.empty "beef" 0 0 (mkBatchCheckRequest ["0xa"; "0xb"] 70)
           ["0xb"; "0xa"] 10 10).
  reflexivity.
Defined.

(** ** Verification endpoints *)

(** X15: a verification that was started is reported pending, with the
    address and type it was started with, until 86400 seconds after it was
    stored, and is answered 404 from then on. *)
Theorem started_verification_is_pending_for_a_day
    (store : Store.MockRedis Verification) (uuid_hex : string)
    (datetime_now time : Q) (request : VerificationRequest)
    (time' datetime_now' : Q) :
  let x := start_verification store uuid_hex datetime_now time request in
  vresp_status x.1 = "pending" /\
  check_verification_status x.2 time' datetime_now' (vresp_verification_id x.1)
  = if Limiter.Qltb time' (time + inject_Z 86400)
    then Return (mkStatusResponse ("ver_" ++ uuid_hex) (vreq_address request)
                   (vreq_verification_type request) "pending" datetime_now')
    else HTTPException 404 "Verification ID not found".
Proof.
  intros x. split; [done|].
  unfold x, start_verification, check_verification_status.
  cbn [fst snd vresp_verification_id].
  rewrite StoreTheory.get_set_ttl by done. unfold day.
  by destruct (Limiter.Qltb time' (time + inject_Z 86400)).
Qed.



(** X17: a verification completed while it is readable and not past its
    [expires_at] is verified, whatever the proof: the reply says so, one
    webhook is scheduled for a callback URL that is not empty and none
    otherwise, and the status is then reported verified for 86400 seconds
    from the completion. *)
Theorem completed_verification_is_verified
    (store : Store.MockRedis Verification) (uuid_hex : string)
    (datetime_now time : Q) (request : VerificationRequest) (at_ : Readings)
    (proof : pyval) (time' datetime_now' : Q) :
  time_get at_ < time + inject_Z 86400 ->
  datetime_check at_ <= datetime_now + inject_Z 86400 ->
  let x := start_verification store uuid_hex datetime_now time request in
  let id := vresp_verification_id x.1 in
  let y := complete_verification x.2 at_ id proof in
  y.1.1 = Return (mkStatusResponse id (vreq_address request)
                    (vreq_verification_type request) "verified"
                    (datetime_verified at_)) /\
  y.2 = match callback_of (vreq_callback_url request) with
        | Some url =>
            [mkWebhookTask url
               (mkWebhookEvent "verification_complete" id
                  (vreq_address request) "verified" (datetime_verified at_))]
        | None => []
        end /\
  check_verification_status y.1.2 time' datetime_now' id
  = if Limiter.Qltb time' (time_set at_ + inject_Z 86400)
    then Return (mkStatusResponse id (vreq_address request)
                   (vreq_verification_type request) "verified" datetime_now')
    else HTTPException 404 "Verification ID not found".
Proof.
  intros Hget Hcheck x id y.
  unfold y, id, x, start_verification, complete_verification,
    check_verification_status.
  cbn [fst snd vresp_verification_id].
  rewrite StoreTheory.get_set_ttl by done. unfold day.
  apply LimiterTheory.Qltb_true in Hget. rewrite Hget.
  cbn [v_expires_at].
  apply LimiterTheory.Qltb_false in Hcheck. rewrite Hcheck.
  cbn [fst snd v_callback_url v_address v_verification_type].
  repeat split.
  rewrite StoreTheory.get_set_ttl by done.
  by destruct (Limiter.Qltb time' (time_set at_ + inject_Z 86400)).
Qed.

Lemma completed_verification_is_verified_witness :
  let request :=
    mkVerificationRequest "0xabcdef0123" "social_twitter"
      (Some "https://example.org/hook") in
  let at_ := mkReadings 10 10 10 10 in
  let x := start_verification Store.empty "feed" 0 0 request in
  let id := vresp_verification_id x.1 in
  let y := complete_verification x.2 at_ id (VStr "tweet") in
  y.1.1 = Return (mkStatusResponse id "0xabcdef0123" "social_twitter"
                    "verified" 10) /\
  y.2 = match callback_of (Some "https://example.org/hook") with
        | Some url =>
            [mkWebhookTask url
               (mkWebhookEvent "verification_complete" id "0xabcdef0123"
                  "verified" 10)]
        | None => []
        end /\
  check_verification_status y.1.2 20 20 id
  = if Limiter.Qltb 20 (10 + inject_Z 86400)
    then Return (mkStatusResponse id "0xabcdef0123" "social_twitter"
                   "verified" 20)
    else HTTPException 404 "Verification ID not found".
Proof.
  apply (completed_verification_is_verified Store.empty "feed" 0 0
           (mkVerificationRequest "0xabcdef0123" "social_twitter"
              (Some "https://example.org/hook"))
           (mkReadings 10 10 10 10) (VStr "tweet") 20 20).
  - reflexivity.
  - discriminate.
Defined.

(** X18: a completion stores the record for a further 86400 seconds but
    leaves [expires_at] where the start put it: past that time and until
    the record is gone the status is still reported verified, while a
    further completion is answered 400 and changes nothing. *)
Theorem completed_verification_outlives_expires_at
    (store : Store.MockRedis Verification) (uuid_hex : string)
    (datetime_now time : Q) (request : VerificationRequest)
    (at_ at' : Readings) (proof proof' : pyval) (datetime_now' : Q) :
  time_get at_ < time + inject_Z 86400 ->
  datetime_check at_ <= datetime_now + inject_Z 86400 ->
  time_get at' < time_set at_ + inject_Z 86400 ->
  datetime_now + inject_Z 86400 < datetime_check at' ->
  let x := start_verification store uuid_hex datetime_now time request in
  let id := vresp_verification_id x.1 in
  let y := complete_verification x.2 at_ id proof in
  check_verification_status y.1.2 (time_get at') datetime_now' id
  = Return (mkStatusResponse id (vreq_address request)
              (vreq_verification_type request) "verified" datetime_now') /\
  complete_verification y.1.2 at' id proof'
  = (HTTPException 400 "Verification expired", y.1.2, []).
Proof.
  intros Hget Hcheck Hget' Hcheck' x id y.
  unfold y, id, x, start_verification, complete_verification,
    check_verification_status.
  cbn [fst snd vresp_verification_id].
  rewrite StoreTheory.get_set_ttl by done. unfold day.
  apply LimiterTheory.Qltb_true in Hget. rewrite Hget.
  cbn [v_expires_at].
  apply LimiterTheory.Qltb_false in Hcheck. rewrite Hcheck.
  cbn [fst snd].
  rewrite !StoreTheory.get_set_ttl by done.
  apply LimiterTheory.Qltb_true in Hget'. rewrite Hget'.
  cbn [v_expires_at v_address v_verification_type v_status].
  apply LimiterTheory.Qltb_true in Hcheck'. rewrite Hcheck'.
  done.
Qed.

Lemma completed_verification_outlives_expires_at_witness :
  let request := mkVerificationRequest "0xabcdef0123" "did_web" None in
  let at_ := mkReadings 86000 86000 86000 86000 in
  let at' := mkReadings 90000 90000 90000 90000 in
  let x := start_verification Store.empty "feed" 0 0 request in
  let id := vresp_verification_id x.1 in
  let y := complete_verification x.2 at_ id (VStr "signature") in
  check_verification_status y.1.2 90000 90000 id
  = Return (mkStatusResponse id "0xabcdef0123" "did_web" "verified" 90000) /\
  complete_verification y.1.2 at' id (VStr "again")
  = (HTTPException 400 "Verification expired", y.1.2, []).
Proof.
  apply (completed_verification_outlives_expires_at Store.empty "feed" 0 0
           (mkVerificationRequest "0xabcdef0123" "did_web" None)
           (mkReadings 86000 86000 86000 86000)
           (mkReadings 90000 90000 90000 90000)
           (VStr "signature") (VStr "again") 90000).
  - reflexivity.
  - discriminate.
  - reflexivity.
  - reflexivity.
Defined.

(** ** Webhook subscriptions *)

(** X19: a subscription can be removed by the key that made it and by no
    other: another key is answered 403 and the subscription stays; the
    owner is answered "unsubscribed", after which the id is answered
    404. *)
Theorem subscription_is_removed_by_its_owner_only
    (store : Store.MockRedis Webhook) (uuid_hex : string)
    (datetime_now time : Q) (api_key other : string)
    (request : WebhookSubscriptionRequest) (time' time'' : Q) :
  time' < time + inject_Z 31536000 ->
  other <> api_key ->
  let x := subscribe_webhook store uuid_hex datetime_now time api_key request
  in
  let id := sresp_subscription_id x.1 in
  let y := unsubscribe_webhook x.2 time' api_key id in
  unsubscribe_webhook x.2 time' other id
  = (HTTPException 403 "Not authorized to delete this subscription", x.2) /\
  y.1 = Return "unsubscribed" /\
  unsubscribe_webhook y.2 time'' api_key id
  = (HTTPException 404 "Subscription ID not found", y.2).
Proof.
  intros Htime Hother x id y.
  unfold y, id, x, subscribe_webhook, unsubscribe_webhook.
  cbn [fst snd sresp_subscription_id].
  rewrite StoreTheory.get_set_ttl by done. unfold year.
  apply LimiterTheory.Qltb_true in Htime. rewrite Htime.
  cbn [w_api_key].
  rewrite String.eqb_refl.
  assert (Hne : String.eqb api_key other = false)
    by (apply String.eqb_neq; congruence).
  rewrite Hne. cbn [negb fst snd].
  repeat split.
  by rewrite StoreTheory.get_delete.
Qed.

Lemma subscription_is_removed_by_its_owner_only_witness :
  let request :=
    mkSubscriptionRequest ["sybil_detected"] "https://example.org/hook" None
  in
  let x := subscribe_webhook Store.empty "cafe" 0 0 "key_a" request in
  let id := sresp_subscription_id x.1 in
  let y := unsubscribe_webhook x.2 10 "key_a" id in
  unsubscribe_webhook x.2 10 "key_b" id
  = (HTTPException 403 "Not authorized to delete this subscription", x.2) /\
  y.1 = Return "unsubscribed" /\
  unsubscribe_webhook y.2 20 "key_a" id
  = (HTTPException 404 "Subscription ID not found", y.2).
Proof.
  apply (subscription_is_removed_by_its_owner_only Store.empty "cafe" 0 0
           "key_a" "key_b"
           (mkSubscriptionRequest ["sybil_detected"]
              "https://example.org/hook" None) 10 20).
  - reflexivity.
  - discriminate.
Defined.

(** ** Sending a webhook *)

#[local] Open Scope Z_scope.

Lemma total_sleep_app (l1 l2 : list Action) :
  total_sleep (l1 ++ l2)%list = total_sleep l1 + total_sleep l2.
Proof.
  unfold total_sleep. induction l1 as [|a l1 IH]; simpl; [done|].
  rewrite IH. lia.
Qed.

Lemma total_sleep_backoff (max_retries : Z) (attempt : nat) :
  total_sleep (backoff max_retries attempt)
  = if Z.of_nat attempt <? max_retries - 1 then 2 ^ Z.of_nat attempt else 0.
Proof.
  unfold backoff. destruct (Z.of_nat attempt <? max_retries - 1); simpl; lia.
Qed.

Lemma pow2_succ (k : nat) : 2 ^ Z.of_nat (S k) = 2 * 2 ^ Z.of_nat k.
Proof. rewrite Nat2Z.inj_succ, Z.pow_succ_r by lia. done. Qed.

(** The loop from [attempt] on posts at most once a round, and sleeps
    less than what brings the total to [2 ^ (max_retries - 1)]. *)
Lemma send_loop_bounds (post : nat -> PostResult) (max_retries : Z)
    (remaining attempt : nat) :
  Z.of_nat (attempt + remaining) = max_retries ->
  (length (List.filter is_post (send_loop post max_retries remaining attempt))
   <= remaining)%nat /\
  0 <= total_sleep (send_loop post max_retries remaining attempt) /\
  (remaining <> 0%nat ->
   2 ^ Z.of_nat attempt
   + total_sleep (send_loop post max_retries remaining attempt)
   <= 2 ^ (max_retries - 1)).
Proof.
  revert attempt. induction remaining as [|rem IH]; intros attempt Hn.
  - simpl. split; [lia|]. split; [done|]. done.
  - assert (Hretry :
      let retry :=
        Post attempt ::
        app (backoff max_retries attempt)
            (send_loop post max_retries rem (S attempt)) in
      (length (List.filter is_post retry) <= S rem)%nat /\
      0 <= total_sleep retry /\
      2 ^ Z.of_nat attempt + total_sleep retry <= 2 ^ (max_retries - 1)).
    { destruct (IH (S attempt)) as (I1 & I2 & I3); [lia|].
      cbn zeta.
      change (total_sleep (Post attempt :: ?l)) with (0 + total_sleep l).
      rewrite total_sleep_app, total_sleep_backoff.
      cbn [List.filter is_post length].
      rewrite List.filter_app, length_app.
      assert (Hb : length (List.filter is_post (backoff max_retries attempt))
                   = 0%nat)
        by (unfold backoff; by destruct (_ <? _)).
      rewrite Hb.
      pose proof (pow2_succ attempt) as Hp.
      assert (0 < 2 ^ Z.of_nat attempt) by (apply Z.pow_pos_nonneg; lia).
      destruct (Z.ltb_spec (Z.of_nat attempt) (max_retries - 1)) as [Hlt|Hge].
      - split; [lia|]. split; [lia|].
        assert (rem <> 0%nat) by lia. specialize (I3 ltac:(done)). lia.
      - assert (rem = 0%nat) by lia. subst rem.
        assert (Hm : max_retries - 1 = Z.of_nat attempt) by lia.
        rewrite Hm. simpl. split; [lia|]. split; [lia|].
        change (total_sleep [LogError]) with 0. lia. }
    assert (Hstop :
      (length (List.filter is_post [Post attempt]) <= S rem)%nat /\
      0 <= total_sleep [Post attempt] /\
      2 ^ Z.of_nat attempt + total_sleep [Post attempt]
        <= 2 ^ (max_retries - 1)).
    { simpl. split; [lia|]. split; [lia|].
      change (total_sleep [Post attempt]) with 0.
      rewrite Z.add_0_r. apply Z.pow_le_mono_r; lia. }
    cbn [send_loop].
    destruct (post attempt) as [status|].
    + destruct (status <? 400).
      * destruct Hstop as (? & ? & ?). repeat split; try done.
      * destruct ((400 <=? status) && (status <? 500) && negb (status =? 429)).
        -- destruct Hstop as (? & ? & ?). repeat split; try done.
        -- destruct Hretry as (? & ? & ?). repeat split; try done.
    + destruct Hretry as (? & ? & ?). repeat split; try done.
Qed.

(** X20: whatever the receiver answers, [send_webhook] posts at most
    [max_retries] times and sleeps less than [2 ^ (max_retries - 1)]
    seconds in all. *)
Theorem send_webhook_is_bounded (post : nat -> PostResult) (max_retries : Z) :
  1 <= max_retries ->
  (length (List.filter is_post (send_webhook post max_retries))
   <= Z.to_nat max_retries)%nat /\
  0 <= total_sleep (send_webhook post max_retries) < 2 ^ (max_retries - 1).
Proof.
  intros Hn. unfold send_webhook.
  destruct (send_loop_bounds post max_retries (Z.to_nat max_retries) 0)
    as (H1 & H2 & H3); [lia|].
  split; [done|]. split; [done|].
  specialize (H3 ltac:(lia)). simpl in H3. lia.
Qed.

Lemma send_webhook_is_bounded_witness :
  (length (List.filter is_post (send_webhook (fun _ => Response 503) 3))
   <= Z.to_nat 3)%nat /\
  0 <= total_sleep (send_webhook (fun _ => Response 503) 3) < 2 ^ (3 - 1).
Proof.
  apply (send_webhook_is_bounded (fun _ => Response 503) 3). lia.
Defined.

Lemma flat_map_seq_ext (f g : nat -> list Action) (start len : nat) :
  (forall i, (start <= i < start + len)%nat -> f i = g i) ->
  flat_map f (seq start len) = flat_map g (seq start len).
Proof.
  revert start. induction len as [|len IH]; intros start H; [done|].
  cbn [seq flat_map]. rewrite (H start) by lia.
  rewrite (IH (S start)); [done|]. intros i Hi. apply H. lia.
Qed.

(** The rounds that end in a retry, from [attempt] on. *)
Lemma send_loop_retries (post : nat -> PostResult) (max_retries : Z)
    (k remaining attempt : nat) :
  (k <= remaining)%nat ->
  (forall i, (attempt <= i < attempt + k)%nat -> final (post i) = false) ->
  send_loop post max_retries remaining attempt
  = (flat_map (fun i => Post i :: backoff max_retries i) (seq attempt k)
       ++ send_loop post max_retries (remaining - k) (attempt + k))%list.
Proof.
  revert remaining attempt. induction k as [|k IH];
    intros remaining attempt Hk Hfinal.
  - simpl. by rewrite Nat.sub_0_r, Nat.add_0_r.
  - destruct remaining as [|rem]; [lia|].
    cbn [send_loop seq flat_map].
    assert (Hf := Hfinal attempt ltac:(lia)).
    rewrite (IH rem (S attempt)) by (try lia; intros i Hi; apply Hfinal; lia).
    replace (S attempt + k)%nat with (attempt + S k)%nat by lia.
    change (S rem - S k)%nat with (rem - k)%nat.
    unfold final in Hf.
    destruct (post attempt) as [status|].
    + apply orb_false_iff in Hf. destruct Hf as [-> ->].
      by rewrite <- !app_assoc.
    + by rewrite <- !app_assoc.
Qed.

Lemma send_webhook_unrolled (post : nat -> PostResult) (max_retries : Z)
    (j : nat) :
  Z.of_nat j < max_retries ->
  (forall i, (i < j)%nat -> final (post i) = false) ->
  send_webhook post max_retries
  = (flat_map (fun i => [Post i; Sleep (2 ^ Z.of_nat i)]) (seq 0 j)
       ++ Post j ::
          (if final (post j) then []
           else if Z.of_nat j <? max_retries - 1
                then Sleep (2 ^ Z.of_nat j)
                     :: send_loop post max_retries
                          (Z.to_nat max_retries - S j) (S j)
                else [LogError]))%list.
Proof.
  intros Hj Hfinal. unfold send_webhook.
  rewrite (send_loop_retries post max_retries j (Z.to_nat max_retries) 0)
    by (try lia; intros i Hi; apply Hfinal; lia).
  f_equal.
  - apply flat_map_seq_ext. intros i Hi.
    unfold backoff. destruct (Z.ltb_spec (Z.of_nat i) (max_retries - 1)); [done|lia].
  - simpl (0 + j)%nat.
    destruct (Z.to_nat max_retries - j)%nat as [|rem] eqn:Hrem; [lia|].
    cbn [send_loop]. unfold final, backoff.
    replace (Z.to_nat max_retries - S j)%nat with rem by lia.
    destruct (post j) as [status|].
    + destruct (status <? 400); [done|].
      destruct ((400 <=? status) && (status <? 500) && negb (status =? 429));
        [done|].
      simpl. destruct (Z.ltb_spec (Z.of_nat j) (max_retries - 1)); [done|].
      assert (rem = 0%nat) by lia. by subst rem.
    + simpl. destruct (Z.ltb_spec (Z.of_nat j) (max_retries - 1)); [done|].
      assert (rem = 0%nat) by lia. by subst rem.
Qed.

(** X21: the schedule of [send_webhook].  The attempts are followed by
    sleeps of 1, 2, 4, ... seconds.  If attempt [j] is the first that is
    answered below 400, or with a 4xx other than 429, nothing follows it;
    if no attempt is, all [max_retries] attempts are made, no sleep follows
    the last one, and the failure is logged. *)
Theorem send_webhook_schedule (post : nat -> PostResult) (max_retries : Z)
    (j : nat) :
  Z.of_nat j < max_retries ->
  (forall i, (i < j)%nat -> final (post i) = false) ->
  (final (post j) = true ->
   send_webhook post max_retries
   = (flat_map (fun i => [Post i; Sleep (2 ^ Z.of_nat i)]) (seq 0 j)
        ++ [Post j])%list) /\
  (final (post j) = false -> Z.of_nat j = max_retries - 1 ->
   send_webhook post max_retries
   = (flat_map (fun i => [Post i; Sleep (2 ^ Z.of_nat i)]) (seq 0 j)
        ++ [Post j; LogError])%list).
Proof.
  intros Hj Hfinal.
  rewrite (send_webhook_unrolled post max_retries j Hj Hfinal).
  split.
  - intros ->. done.
  - intros -> Hlast.
    destruct (Z.ltb_spec (Z.of_nat j) (max_retries - 1)); [lia|done].
Qed.

Lemma send_webhook_schedule_witness :
  let post :=
    fun i => match i with 2%nat => Response 200 | _ => Response 503 end in
  (final (post 2%nat) = true ->
   send_webhook post 3
   = (flat_map (fun i => [Post i; Sleep (2 ^ Z.of_nat i)]) (seq 0 2)
        ++ [Post 2])%list) /\
  (final (post 2%nat) = false -> Z.of_nat 2 = 3 - 1 ->
   send_webhook post 3
   = (flat_map (fun i => [Post i; Sleep (2 ^ Z.of_nat i)]) (seq 0 2)
        ++ [Post 2; LogError])%list).
Proof.
  apply (send_webhook_schedule
           (fun i => match i with 2%nat => Response 200 | _ => Response 503 end)
           3 2).
  - lia.
  - intros [|[|i]] Hi; [reflexivity|reflexivity|lia].
Defined.

End ApiServerTheory.

(** * Round trips through the manager and the verifiers *)

Module RoundTripTheory.
Import VerificationManager Scenario.
Module S := SocialMediaVerifier.
Module D := DecentralizedIDVerifier.
Module P := ProofOfPersonhoodVerifier.

#[local] Open Scope Z_scope.

Lemma od_get_set_ne (d : records) (k k' : string) (v : Record_) :
  k <> k' -> od_get (od_set d k v) k' = od_get d k'.
Proof.
  intros Hne. induction d as [|[k0 v0] d IH]; cbn.
  - apply String.eqb_neq in Hne. by rewrite Hne.
  - destruct (String.eqb k0 k) eqn:E; cbn.
    + apply String.eqb_eq in E. subst k0.
      apply String.eqb_neq in Hne. by rewrite Hne.
    + destruct (String.eqb k0 k'); [done|exact IH].
Qed.

Lemma od_set_keys (d : records) (k : string) (v : Record_) :
  map fst (od_set d k v)
  = (map fst d
     ++ match od_get d k with Some _ => [] | None => [k] end)%list.
Proof.
  induction d as [|[k0 v0] d IH]; cbn; [done|].
  destruct (String.eqb k0 k) eqn:E; cbn.
  - apply String.eqb_eq in E. subst k0. by rewrite app_nil_r.
  - by rewrite IH.
Qed.

Lemma od_set_new (d : records) (k : string) (v : Record_) :
  od_get d k = None -> od_set d k v = (d ++ [(k, v)])%list.
Proof.
  induction d as [|[k0 v0] d IH]; cbn; [done|].
  destruct (String.eqb k0 k); [done|]. intros H. by rewrite IH.
Qed.

(** What the manager does with the answer of the verifier it dispatches
    to. *)
Lemma manager_start (globals : list string) (m : t) (env : Env)
    (ty address : string) (verifier verifier' : Verifier) (result : dict)
    (vid : string) :
  verifiers m !! ty = Some verifier ->
  verifier_start_in globals verifier env address = (Ok result, verifier') ->
  subscript_str result "verification_id" = Ok vid ->
  start_verification_in globals m env ty address
  = (Ok result,
     mk (<[ty := verifier']> (verifiers m))
        (od_set (verification_records m) vid
           (mkRecord ty address "pending" (clock env) None None))).
Proof.
  intros Hv Hstart Hid. unfold start_verification_in.
  rewrite Hv, Hstart. cbn [fst snd]. by rewrite Hid.
Qed.

Lemma manager_check (m : t) (vid : string) (record : Record_)
    (verifier verifier' : Verifier) (result : dict) (s : string) :
  od_get (verification_records m) vid = Some record ->
  verifiers m !! verification_type record = Some verifier ->
  verifier_check verifier vid = (Ok result, verifier') ->
  subscript_str result "status" = Ok s ->
  check_verification_status m vid
  = (Ok result,
     mk (<[verification_type record := verifier']> (verifiers m))
        (od_set (verification_records m) vid (set_status record s))).
Proof.
  intros Hr Hv Hcheck Hs. unfold check_verification_status.
  rewrite Hr, Hv, Hcheck. cbn [fst snd]. by rewrite Hs.
Qed.

Lemma manager_complete (m : t) (env : Env) (vid : string) (proof : pyval)
    (record : Record_) (verifier verifier' : Verifier) (result : dict)
    (s : string) :
  od_get (verification_records m) vid = Some record ->
  verifiers m !! verification_type record = Some verifier ->
  verifier_complete verifier env vid proof = (Ok result, verifier') ->
  subscript_str result "status" = Ok s ->
  complete_verification m env vid proof
  = (Ok result,
     mk (<[verification_type record := verifier']> (verifiers m))
        (od_set (verification_records m) vid
           (if String.eqb s "verified"
            then set_verified (set_status record s) (clock env)
                   (sha256_hexdigest (py_str proof))
            else set_status record s))).
Proof.
  intros Hr Hv Hc Hs. unfold complete_verification.
  rewrite Hr, Hv, Hc. cbn [fst snd]. by rewrite Hs.
Qed.

Lemma manager_complete_raises (m : t) (env : Env) (vid : string)
    (proof : pyval) (record : Record_) (verifier verifier' : Verifier)
    (e : exn) :
  od_get (verification_records m) vid = Some record ->
  verifiers m !! verification_type record = Some verifier ->
  verifier_complete verifier env vid proof = (Raise e, verifier') ->
  complete_verification m env vid proof
  = (Raise e,
     mk (<[verification_type record := verifier']> (verifiers m))
        (verification_records m)).
Proof.
  intros Hr Hv Hc. unfold complete_verification.
  by rewrite Hr, Hv, Hc.
Qed.

Lemma session_is_reported (v : Verifier) (vid s : string) :
  verifier_session_status v vid = Some s ->
  exists result,
    verifier_check v vid = (Ok result, v) /\
    subscript_str result "status" = Ok s /\
    status_of result = Some (VStr s).
Proof.
  destruct v as [ty last|v|v|v]; cbn; [discriminate| | |].
  - unfold S.check_verification_status.
    destruct (_ !! vid) as [c|]; cbn; intros [= <-]. by eexists.
  - unfold D.check_verification_status.
    destruct (_ !! vid) as [c|]; cbn; intros [= <-]. by eexists.
  - unfold P.check_verification_status.
    destruct (_ !! vid) as [c|]; cbn; intros [= <-]. by eexists.
Qed.

(** A start followed by a completion that the verifier accepts, and a
    check. *)
Lemma accepted_round_trip (globals : list string) (m : t) (env env' : Env)
    (ty address : string) (proof : pyval) (verifier v1 v2 : Verifier)
    (r0 rc : dict) (vid : string) :
  verifiers m !! ty = Some verifier ->
  verifier_start_in globals verifier env address = (Ok r0, v1) ->
  subscript_str r0 "verification_id" = Ok vid ->
  verifier_complete v1 env' vid proof = (Ok rc, v2) ->
  subscript_str rc "status" = Ok "verified" ->
  verifier_session_status v2 vid = Some "verified" ->
  let started := start_verification_in globals m env ty address in
  let x := complete_verification started.2 env' vid proof in
  started.1 = Ok r0 /\
  x.1 = Ok rc /\
  od_get (verification_records x.2) vid
  = Some (mkRecord ty address "verified" (clock env) (Some (clock env'))
            (Some (sha256_hexdigest (py_str proof)))) /\
  reported_status (check_verification_status x.2 vid).1
  = Some (VStr "verified").
Proof.
  intros Hreg Hstart Hid Hc Hs Hsess started x.
  unfold x, started.
  rewrite (manager_start _ _ _ _ _ _ _ _ _ Hreg Hstart Hid).
  cbn [fst snd]. split; [done|].
  set (record0 := mkRecord ty address "pending" (clock env) None None).
  erewrite (manager_complete _ env' vid proof record0 v1 v2 rc "verified");
    [|apply VerificationTheory.od_get_set|apply lookup_insert_eq|exact Hc
     |exact Hs].
  cbn [fst snd verification_records verifiers verification_type record0].
  split; [done|].
  rewrite VerificationTheory.od_get_set. split; [done|].
  destruct (session_is_reported v2 vid "verified" Hsess)
    as (result & Hcheck & Hstatus & Hrep).
  erewrite manager_check;
    [|apply VerificationTheory.od_get_set|apply lookup_insert_eq|exact Hcheck
     |exact Hstatus].
  exact Hrep.
Qed.

(** A start followed by a completion in which the verifier raises after
    having marked the session verified, and a check. *)
Lemma raised_round_trip (globals : list string) (m : t) (env env' : Env)
    (ty address : string) (proof : pyval) (verifier v1 v2 : Verifier)
    (r0 : dict) (e : exn) (vid : string) :
  verifiers m !! ty = Some verifier ->
  verifier_start_in globals verifier env address = (Ok r0, v1) ->
  subscript_str r0 "verification_id" = Ok vid ->
  verifier_complete v1 env' vid proof = (Raise e, v2) ->
  verifier_session_status v2 vid = Some "verified" ->
  let started := start_verification_in globals m env ty address in
  let x := complete_verification started.2 env' vid proof in
  let y := check_verification_status x.2 vid in
  x.1 = Raise e /\
  od_get (verification_records x.2) vid
  = Some (mkRecord ty address "pending" (clock env) None None) /\
  reported_status y.1 = Some (VStr "verified") /\
  od_get (verification_records y.2) vid
  = Some (mkRecord ty address "verified" (clock env) None None).
Proof.
  intros Hreg Hstart Hid Hc Hsess started x y.
  unfold y, x, started.
  rewrite (manager_start _ _ _ _ _ _ _ _ _ Hreg Hstart Hid).
  cbn [fst snd].
  set (record0 := mkRecord ty address "pending" (clock env) None None).
  erewrite (manager_complete_raises _ env' vid proof record0 v1 v2 e);
    [|apply VerificationTheory.od_get_set|apply lookup_insert_eq|exact Hc].
  cbn [fst snd verification_records verifiers verification_type record0].
  split; [done|].
  rewrite VerificationTheory.od_get_set. split; [done|].
  destruct (session_is_reported v2 vid "verified" Hsess)
    as (result & Hcheck & Hstatus & Hrep).
  erewrite manager_check;
    [|apply VerificationTheory.od_get_set|apply lookup_insert_eq|exact Hcheck
     |exact Hstatus].
  cbn [fst snd verification_records].
  split; [exact Hrep|].
  by rewrite VerificationTheory.od_get_set.
Qed.

(** ** The social media verifier *)



(** X23: a social media completion whose proof is not a string raises, and
    the manager's record stays pending; but the verifier has marked the
    session verified before raising, so that the next status check reports
    verified and the record becomes verified without a time or a proof
    digest. *)
Theorem social_proof_of_wrong_type_still_verifies (m : t) (ty : string)
    (v : S.t) (env env' : Env) (address : string) (proof : pyval) :
  verifiers m !! ty = Some (Social v) ->
  (forall p, proof <> VStr p) ->
  let vid := generate_verification_id (S.verification_type v) env address in
  let started := start_verification m env ty address in
  let x := complete_verification started.2 env' vid proof in
  let y := check_verification_status x.2 vid in
  x.1 = Raise (AttributeError "encode") /\
  od_get (verification_records x.2) vid
  = Some (mkRecord ty address "pending" (clock env) None None) /\
  reported_status y.1 = Some (VStr "verified") /\
  od_get (verification_records y.2) vid
  = Some (mkRecord ty address "verified" (clock env) None None).
Proof.
  intros Hreg Hproof vid started x y. subst y x started vid.
  unfold start_verification.
  destruct proof as [|b|z|s|items]; try (by destruct (Hproof s));
    (eapply (raised_round_trip module_globals m env env' ty address _
               (Social v)); [exact Hreg|reflexivity|reflexivity| |];
     [unfold verifier_complete, S.complete_verification;
      cbn [S.start_verification snd S.verification_challenges];
      rewrite lookup_insert_eq; reflexivity
     |cbn; rewrite lookup_insert_eq; reflexivity]).
Qed.

Lemma social_proof_of_wrong_type_still_verifies_witness :
  let vid := generate_verification_id "social_twitter" (env_at 1 "aa") "0xabc"
  in
  let started :=
    start_verification twitter_manager (env_at 1 "aa") "social_twitter" "0xabc"
  in
  let x := complete_verification started.2 (env_at 2 "bb") vid VNone in
  let y := check_verification_status x.2 vid in
  x.1 = Raise (AttributeError "encode") /\
  od_get (verification_records x.2) vid
  = Some (mkRecord "social_twitter" "0xabc" "pending" 1 None None) /\
  reported_status y.1 = Some (VStr "verified") /\
  od_get (verification_records y.2) vid
  = Some (mkRecord "social_twitter" "0xabc" "verified" 1 None None).
Proof.
  apply (social_proof_of_wrong_type_still_verifies twitter_manager
           "social_twitter" (S.init "twitter") (env_at 1 "aa") (env_at 2 "bb")
           "0xabc" VNone).
  - vm_compute. reflexivity.
  - discriminate.
Defined.

(** ** The decentralized identity verifier *)



(** X25: a DID completion whose proof is not a dictionary raises, and the
    manager's record stays pending; but the verifier has marked the request
    verified before raising, so that the next status check reports verified
    and the record becomes verified without a time or a proof digest. *)
Theorem did_proof_of_wrong_type_still_verifies (m : t) (ty : string)
    (v : D.t) (env env' : Env) (address : string) (proof : pyval) :
  verifiers m !! ty = Some (Did v) ->
  (forall items, proof <> VDict items) ->
  let vid := generate_verification_id (D.verification_type v) env address in
  let started := start_verification m env ty address in
  let x := complete_verification started.2 env' vid proof in
  let y := check_verification_status x.2 vid in
  x.1 = Raise (AttributeError "get") /\
  od_get (verification_records x.2) vid
  = Some (mkRecord ty address "pending" (clock env) None None) /\
  reported_status y.1 = Some (VStr "verified") /\
  od_get (verification_records y.2) vid
  = Some (mkRecord ty address "verified" (clock env) None None).
Proof.
  intros Hreg Hproof vid started x y. subst y x started vid.
  unfold start_verification.
  destruct proof as [|b|z|s|items]; try (by destruct (Hproof items));
    (eapply (raised_round_trip module_globals m env env' ty address _
               (Did v)); [exact Hreg|reflexivity|reflexivity| |];
     [unfold verifier_complete, D.complete_verification;
      cbn [D.start_verification snd D.verification_requests];
      rewrite lookup_insert_eq; reflexivity
     |cbn; rewrite lookup_insert_eq; reflexivity]).
Qed.

Lemma did_proof_of_wrong_type_still_verifies_witness :
  let m := register_verifier init (Did (D.init "did:web")) in
  let vid := generate_verification_id "did_did_web" (env_at 1 "aa") "0xabc" in
  let started := start_verification m (env_at 1 "aa") "did_did_web" "0xabc" in
  let x :=
    complete_verification started.2 (env_at 2 "bb") vid (VStr "signature") in
  let y := check_verification_status x.2 vid in
  x.1 = Raise (AttributeError "get") /\
  od_get (verification_records x.2) vid
  = Some (mkRecord "did_did_web" "0xabc" "pending" 1 None None) /\
  reported_status y.1 = Some (VStr "verified") /\
  od_get (verification_records y.2) vid
  = Some (mkRecord "did_did_web" "0xabc" "verified" 1 None None).
Proof.
  apply (did_proof_of_wrong_type_still_verifies
           (register_verifier init (Did (D.init "did:web"))) "did_did_web"
           (D.init "did:web") (env_at 1 "aa") (env_at 2 "bb") "0xabc"
           (VStr "signature")).
  - vm_compute. reflexivity.
  - discriminate.
Defined.

(** ** The proof-of-personhood verifier *)



Lemma pop_locked_step (self : P.t) (env : Env) (vid : string)
    (s : P.Session) (proof : pyval) :
  P.verification_sessions self !! vid = Some s ->
  P.max_attempts s <= P.attempts s ->
  exists result s',
    P.complete_verification self env vid proof
      = (Ok result, P.store self vid s') /\
    status_of result = Some (VStr "failed") /\
    P.status s' = "failed" /\
    P.max_attempts s' <= P.attempts s'.
Proof.
  intros Hs Hmax. unfold P.complete_verification. rewrite Hs.
  cbn [P.with_attempts P.max_attempts P.attempts].
  assert (Hlt : (P.max_attempts s <? P.attempts s + 1) = true)
    by (apply Z.ltb_lt; lia).
  rewrite Hlt. eexists. eexists. split; [reflexivity|].
  split; [reflexivity|]. split; [reflexivity|]. cbn. lia.
Qed.

(** X27: once the attempts of a session are used up, every further
    completion is answered failed and leaves the session failed, whatever
    the proof: the right answer comes too late, and a session that had been
    verified is failed as well. *)
Theorem pop_lockout_is_permanent (self : P.t) (env : Env) (vid : string)
    (s : P.Session) (proofs : list pyval) :
  P.verification_sessions self !! vid = Some s ->
  P.max_attempts s <= P.attempts s ->
  Forall (fun r => reported_status r = Some (VStr "failed"))
    (pop_completions self env vid proofs) /\
  (forall proof,
     P.status <$>
       P.verification_sessions
         (P.complete_verification self env vid proof).2 !! vid
     = Some "failed").
Proof.
  intros Hs Hmax. split.
  - revert self s Hs Hmax. induction proofs as [|proof proofs IH];
      intros self s Hs Hmax; [constructor|].
    cbn [pop_completions].
    destruct (pop_locked_step self env vid s proof Hs Hmax)
      as (result & s' & Hc & Hres & Hst & Hmax').
    rewrite Hc. cbn [fst snd]. constructor; [exact Hres|].
    apply (IH _ s'); [|exact Hmax'].
    unfold P.store. cbn. apply lookup_insert_eq.
  - intros proof.
    destruct (pop_locked_step self env vid s proof Hs Hmax)
      as (result & s' & Hc & Hres & Hst & Hmax').
    rewrite Hc. unfold P.store. cbn. rewrite lookup_insert_eq. cbn.
    by rewrite Hst.
Qed.

Lemma pop_lockout_is_permanent_witness :
  let verified :=
    (P.complete_verification captcha_verifier (env_at 2 "bb") captcha_id
       (VStr "7")).2 in
  let self :=
    (P.complete_verification
       (P.complete_verification verified (env_at 3 "cc") captcha_id
          (VStr "7")).2
       (env_at 4 "dd") captcha_id (VStr "7")).2 in
  Forall (fun r => reported_status r = Some (VStr "failed"))
    (pop_completions self (env_at 5 "ee") captcha_id [VStr "7"; VStr "7"]) /\
  (forall proof,
     P.status <$>
       P.verification_sessions
         (P.complete_verification self (env_at 5 "ee") captcha_id proof).2
         !! captcha_id
     = Some "failed").
Proof.
  apply (pop_lockout_is_permanent _ (env_at 5 "ee") captcha_id
           (P.mkSession "0xabc"
              [("type", VStr "text_captcha");
               ("question", VStr "What is 3 + 4?");
               ("answer", VStr "7")]
              "verified" 1 "captcha" 3 3 (Some 4))
           [VStr "7"; VStr "7"]).
  - vm_compute. reflexivity.
  - vm_compute. discriminate.
Defined.

(** ** The manager *)

(** X28: registering a new verifier object under a type that is in use
    replaces the old one with its sessions: the verifications started with
    the old one are then reported not found by a check and failed by a
    completion, and the record takes that status. *)
Theorem reregistered_verifier_forgets_its_sessions (m : t) (vid : string)
    (record : Record_) (v : Verifier) (env : Env) (proof : pyval) :
  od_get (verification_records m) vid = Some record ->
  fresh_verifier v ->
  type_of v = verification_type record ->
  (forall ty last, v <> Base ty last) ->
  let m' := register_verifier m v in
  let x := check_verification_status m' vid in
  let y := complete_verification m' env vid proof in
  reported_status x.1 = Some (VStr "not_found") /\
  record_status x.2 vid = Some "not_found" /\
  reported_status y.1 = Some (VStr "failed") /\
  record_status y.2 vid = Some "failed".
Proof.
  intros Hrec Hfresh Hty Hbase m' x y. subst y x m'.
  unfold check_verification_status, complete_verification, register_verifier,
    record_status.
  cbn [verification_records verifiers]. rewrite Hrec, <- Hty.
  rewrite lookup_insert_eq.
  destruct Hfresh as [ty|platform|did_method|method];
    [by destruct (Hbase ty None)| | |];
    unfold verifier_check, verifier_complete,
      S.check_verification_status, S.complete_verification, S.init,
      D.check_verification_status, D.complete_verification, D.init,
      P.check_verification_status, P.complete_verification, P.init;
    cbn [S.verification_challenges D.verification_requests
         P.verification_sessions];
    rewrite !lookup_empty; cbn;
    rewrite !VerificationTheory.od_get_set; done.
Qed.

Lemma reregistered_verifier_forgets_its_sessions_witness :
  let vid := "social_twitter_0xabc_1_aa" in
  let m :=
    run twitter_manager [OpStart (env_at 1 "aa") "social_twitter" "0xabc"] in
  let m' := register_verifier m (Social (S.init "twitter")) in
  let x := check_verification_status m' vid in
  let y := complete_verification m' (env_at 2 "bb") vid (VStr "proof") in
  reported_status x.1 = Some (VStr "not_found") /\
  record_status x.2 vid = Some "not_found" /\
  reported_status y.1 = Some (VStr "failed") /\
  record_status y.2 vid = Some "failed".
Proof.
  apply (reregistered_verifier_forgets_its_sessions
           (run twitter_manager
              [OpStart (env_at 1 "aa") "social_twitter" "0xabc"])
           "social_twitter_0xabc_1_aa"
           (mkRecord "social_twitter" "0xabc" "pending" 1 None None)
           (Social (S.init "twitter")) (env_at 2 "bb") (VStr "proof")).
  - vm_compute. reflexivity.
  - apply fresh_social.
  - reflexivity.
  - discriminate.
Defined.

Lemma step_appends (globals : list string) (m : t) (op : Op) :
  exists tail,
    map fst (verification_records (step_in globals m op).2)
    = (map fst (verification_records m) ++ tail)%list.
Proof.
  assert (Hsame : exists tail,
            map fst (verification_records m)
            = (map fst (verification_records m) ++ tail)%list)
    by (exists []; by rewrite app_nil_r).
  assert (Hset : forall vid record, exists tail,
            map fst (od_set (verification_records m) vid record)
            = (map fst (verification_records m) ++ tail)%list)
    by (intros vid record; rewrite od_set_keys; by eexists).
  destruct op as [env ty addr|vid|env vid proof]; cbn [step_in].
  - unfold start_verification_in.
    repeat case_match; cbn [snd verification_records]; auto.
  - unfold check_verification_status.
    repeat case_match; cbn [snd verification_records]; auto.
  - unfold complete_verification.
    repeat case_match; cbn [snd verification_records]; auto.
Qed.

(** X29: no operation of the manager removes or reorders a record: over
    any run the ids on record keep their order and new ones are appended
    behind them. *)
Theorem records_are_only_appended (globals : list string) (m : t)
    (ops : list Op) :
  exists tail,
    map fst (verification_records (run_in globals m ops))
    = (map fst (verification_records m) ++ tail)%list.
Proof.
  revert m. induction ops as [|op ops IH]; intros m.
  - exists []. by rewrite app_nil_r.
  - rewrite VerificationTheory.run_cons.
    destruct (IH (step_in globals m op).2) as [tail2 H2].
    destruct (step_appends globals m op) as [tail1 H1].
    exists (tail1 ++ tail2)%list. by rewrite H2, H1, app_assoc.
Qed.

(** X30: a verification that has just been started under a new id is the
    last entry of the history of its address, as pending, and the
    histories of the other addresses are what they were. *)
Theorem started_verification_is_last_in_history (globals : list string)
    (m : t) (env : Env) (ty address : string) (result : dict)
    (vid : string) :
  (start_verification_in globals m env ty address).1 = Ok result ->
  subscript_str result "verification_id" = Ok vid ->
  od_get (verification_records m) vid = None ->
  let m' := (start_verification_in globals m env ty address).2 in
  get_verification_history m' address
  = (get_verification_history m address
       ++ [mkEntry vid ty "pending" (clock env) None])%list /\
  (forall other, other <> address ->
     get_verification_history m' other = get_verification_history m other).
Proof.
  intros Hres Hid Hnew m'.
  assert (Hrecords : verification_records m'
            = (verification_records m
                 ++ [(vid, mkRecord ty address "pending" (clock env) None
                             None)])%list).
  { unfold m'. unfold start_verification_in in *.
    destruct (verifiers m !! ty) as [verifier|].
    - destruct (verifier_start_in globals verifier env address) as [r v'].
      cbn [fst snd] in *. destruct r as [result'|e]; [|discriminate].
      destruct (subscript_str result' "verification_id") as [vid'|e] eqn:Hid';
        [|discriminate].
      cbn [fst snd] in *. injection Hres as <-.
      rewrite Hid in Hid'. injection Hid' as <-.
      cbn [verification_records]. by apply od_set_new.
    - cbn [fst] in Hres. injection Hres as <-. discriminate. }
  unfold get_verification_history. rewrite Hrecords.
  split.
  - rewrite !VerificationTheory.history_loop. cbn [app].
    rewrite List.filter_app, List.map_app.
    cbn [List.filter snd VerificationManager.address].
    rewrite String.eqb_refl. reflexivity.
  - intros other Hother. apply String.eqb_neq in Hother.
    rewrite !VerificationTheory.history_loop. cbn [app].
    rewrite List.filter_app, List.map_app.
    cbn [List.filter snd VerificationManager.address].
    rewrite String.eqb_sym, Hother. cbn. by rewrite app_nil_r.
Qed.

Lemma started_verification_is_last_in_history_witness :
  let m :=
    run twitter_manager [OpStart (env_at 1 "aa") "social_twitter" "0xabc"] in
  let m' :=
    (start_verification_in module_globals m (env_at 2 "bb") "social_twitter"
       "0xabc").2 in
  get_verification_history m' "0xabc"
  = (get_verification_history m "0xabc"
       ++ [mkEntry "social_twitter_0xabc_2_bb" "social_twitter" "pending" 2
             None])%list /\
  (forall other, other <> "0xabc" ->
     get_verification_history m' other = get_verification_history m other).
Proof.
  eapply (started_verification_is_last_in_history module_globals
            (run twitter_manager
               [OpStart (env_at 1 "aa") "social_twitter" "0xabc"])
            (env_at 2 "bb") "social_twitter" "0xabc" _
            "social_twitter_0xabc_2_bb").
  - vm_compute. reflexivity.
  - vm_compute. reflexivity.
  - vm_compute. reflexivity.
Defined.

End RoundTripTheory.
